(** * Mermaid core: text preprocessing and diagram resolution

    A shallow embedding of [preprocess.ts] (text normalisation, front
    matter and directive handling) and of [Diagram.ts] (resolution of a
    diagram type against the registry and construction of the facade).

    JavaScript strings are modelled as [string] / [list ascii]: the
    regular expressions of [cleanupText] carry no [u] or [i] flag and
    only tell apart ASCII characters, so every other code unit behaves
    like any byte outside the classes they name. *)

From Stdlib Require Import Ascii String NArith.
From stdpp Require Import base option list strings gmap.

Local Open Scope char_scope.

(** ** Characters the regular expressions name *)

Definition cr : ascii := "013".
Definition lf : ascii := "010".
Definition dquote : ascii := "034".
Definition squote : ascii := "'".
Definition lt_sign : ascii := "<".
Definition gt_sign : ascii := ">".
Definition eq_sign : ascii := "=".

(** [\w] without the [u] and [i] flags: [[A-Za-z0-9_]]. *)
Definition is_word (c : ascii) : bool :=
  let n := N_of_ascii c in
  ((48 <=? n) && (n <=? 57) || (65 <=? n) && (n <=? 90)
   || (97 <=? n) && (n <=? 122) || (n =? 95))%N.

Definition not_char (a c : ascii) : bool := negb (Ascii.eqb c a).

(** Greedy run of a character class: the longest prefix whose characters
    satisfy [p], and what follows it. *)
Fixpoint span (p : ascii -> bool) (l : list ascii) : list ascii * list ascii :=
  match l with
  | [] => ([], [])
  | c :: t => if p c then let '(a, b) := span p t in (c :: a, b) else ([], l)
  end.

(** ** [String.prototype.replace] with a global regular expression

    A matcher stands for one regular expression together with its
    replacement: tried at the head of the remaining input, it answers
    with the replacement text and the input left after the match.  The
    scan of [replace] with the [g] flag copies one character where the
    expression does not match and resumes after the match where it
    does. *)

Definition Matcher := list ascii -> option (list ascii * list ascii).

Fixpoint replace_fuel (m : Matcher) (fuel : nat) (l : list ascii) : list ascii :=
  match fuel with
  | O => l
  | S n =>
      match m l with
      | Some (r, rest) => r ++ replace_fuel m n rest
      | None =>
          match l with
          | [] => []
          | c :: t => c :: replace_fuel m n t
          end
      end
  end.

Definition replace_all (m : Matcher) (l : list ascii) : list ascii :=
  replace_fuel m (length l) l.

(** Every match of a matcher consumes input. *)
Definition shrinking (m : Matcher) : Prop :=
  forall l r rest, m l = Some (r, rest) -> length rest < length l.

(** What stops a greedy run is a character outside the class. *)
Definition stops (p : ascii -> bool) (l : list ascii) : Prop :=
  match l with
  | [] => True
  | c :: _ => p c = false
  end.

(** ** cleanupText *)

(** [.replace(/\r\n?/g, '\n')] *)
Fixpoint replace_crlf (l : list ascii) : list ascii :=
  match l with
  | [] => []
  | c :: t =>
      if Ascii.eqb c cr then
        match t with
        | c' :: t' => if Ascii.eqb c' lf then lf :: replace_crlf t' else lf :: replace_crlf t
        | [] => [lf]
        end
      else c :: replace_crlf t
  end.

(** The attribute pattern: an equals sign, a double quote, a greedy run of
    characters other than the double quote (group 1) and a closing double
    quote.  Its replacement is group 1 between single quotes after the
    equals sign. *)
Definition match_attr (l : list ascii) : option (list ascii * list ascii) :=
  match l with
  | a :: b :: l1 =>
      if Ascii.eqb a eq_sign && Ascii.eqb b dquote then
        let '(v, l2) := span (not_char dquote) l1 in
        match l2 with
        | _ :: rest => Some (v, rest)
        | [] => None
        end
      else None
  | _ => None
  end.

Definition attr_rewrite : Matcher := fun l =>
  match match_attr l with
  | Some (v, rest) => Some (eq_sign :: squote :: v ++ [squote], rest)
  | None => None
  end.

(** [attributes.replace(...)] with the attribute pattern, [g] flag. *)
Definition replace_attrs (attributes : list ascii) : list ascii :=
  replace_all attr_rewrite attributes.

(** The tag pattern: [<], a greedy non-empty run of [\w] (group 1, the
    tag), a greedy run of characters other than [>] (group 2, the
    attributes) and a closing [>].  Answers with both groups and the
    input after the closing [>].  Backtracking never finds a match the
    greedy runs miss: a shorter group 1 only moves word characters into
    group 2, and a shorter group 2 is followed by a character that is
    not [>]. *)
Definition match_tag (l : list ascii) : option (list ascii * list ascii * list ascii) :=
  match l with
  | c :: l1 =>
      if Ascii.eqb c lt_sign then
        let '(tag, l2) := span is_word l1 in
        match tag with
        | [] => None
        | _ :: _ =>
            let '(attributes, l3) := span (not_char gt_sign) l2 in
            match l3 with
            | _ :: rest => Some (tag, attributes, rest)
            | [] => None
            end
        end
      else None
  | [] => None
  end.

(** The replacement callback [(match, tag, attributes) => '<' + tag +
    attributes.replace(...) + '>']. *)
Definition tag_rewrite : Matcher := fun l =>
  match match_tag l with
  | Some (tag, attributes, rest) =>
      Some (lt_sign :: tag ++ replace_attrs attributes ++ [gt_sign], rest)
  | None => None
  end.

Definition replace_tags (l : list ascii) : list ascii :=
  replace_all tag_rewrite l.

Definition cleanupChars (code : list ascii) : list ascii :=
  replace_tags (replace_crlf code).

Definition cleanupText (code : string) : string :=
  string_of_list_ascii (cleanupChars (list_ascii_of_string code)).

(** One character of the rewritten text against the character it comes
    from: the same, or a single quote for a double quote. *)
Definition qswap (a b : ascii) : Prop := a = b \/ (a = dquote /\ b = squote).

(** [requoted l l'] : the text [l'] is [l] with some double quotes turned
    into single quotes, position by position. *)
Definition requoted : list ascii -> list ascii -> Prop := Forall2 qswap.

(** A character class that does not tell the two quotes apart. *)
Definition quote_blind (p : ascii -> bool) : Prop := p dquote = p squote.

(** The attributes of a well-formed tag: each pair is the text in front
    of an equals sign and the value between two quotes [q] after it;
    [post] is what follows the last value. *)
Fixpoint quoted_attrs (q : ascii) (attrs : list (list ascii * list ascii))
    (post : list ascii) : list ascii :=
  match attrs with
  | [] => post
  | (name, value) :: attrs' =>
      name ++ eq_sign :: q :: value ++ q :: quoted_attrs q attrs' post
  end.

(** The last character of a text is not [c]. *)
Fixpoint not_ending_with (c : ascii) (l : list ascii) : Prop :=
  match l with
  | [] => True
  | [d] => d <> c
  | _ :: t => not_ending_with c t
  end.

Local Open Scope string_scope.
Set Warnings "-register-all".

(** ** Values, errors and results

    Configuration fragments are arbitrary nested mappings from string
    keys to values.  An object keeps its properties in insertion order,
    so it is an association list; arrays and fractional numbers do not
    occur in what the two modules do with a configuration and are left
    out of the value type. *)

Inductive JVal :=
| JUndefined
| JNull
| JBool (b : bool)
| JNum (n : Z)
| JStr (s : string)
| JObj (fields : list (string * JVal)).

Abbreviation Obj := (list (string * JVal)).

(** [o[k]] *)
Fixpoint obj_get (k : string) (o : Obj) : JVal :=
  match o with
  | [] => JUndefined
  | (k', v) :: o' => if String.eqb k k' then v else obj_get k o'
  end.

(** [o[k] = v]: an own property keeps its place, a new one goes last. *)
Fixpoint obj_set (k : string) (v : JVal) (o : Obj) : Obj :=
  match o with
  | [] => [(k, v)]
  | (k', v') :: o' => if String.eqb k k' then (k, v) :: o' else (k', v') :: obj_set k v o'
  end.

(** [k in o], for an object without a prototype chain. *)
Fixpoint obj_has (k : string) (o : Obj) : bool :=
  match o with
  | [] => false
  | (k', _) :: o' => String.eqb k k' || obj_has k o'
  end.

(** ToBoolean *)
Definition truthy (v : JVal) : bool :=
  match v with
  | JUndefined | JNull => false
  | JBool b => b
  | JNum n => negb (n =? 0)%Z
  | JStr s => negb (String.eqb s "")
  | JObj _ => true
  end.

(** ToBoolean of an optional string ([undefined] when absent). *)
Definition truthy_str (s : option string) : bool :=
  match s with
  | Some s => negb (String.eqb s "")
  | None => false
  end.

Inductive Error :=
| UnknownDiagramError (message : string)
| DiagramNotFoundError (name : string)
| TypeError (message : string)
| OtherError (message : string).

Inductive Result (A : Type) :=
| Ok (a : A)
| Err (e : Error).
Arguments Ok {A} a.
Arguments Err {A} e.

(** ** preprocess.ts *)

Module Preprocess.

Record FrontMatterMetadata := {
  md_title : option string;
  md_displayMode : option string;
  md_config : option Obj
}.

(** What [utils.detectDirective] hands back: one directive, an array of
    them, or a nullish value (the source guards with [Array.isArray] and
    with [?.]). *)
Record Directive := {
  dir_type : option string;
  dir_args : JVal
}.

Inductive Detected :=
| DArray (ds : list Directive)
| DSingle (d : Directive)
| DNullish.

(** The functions [preprocess.ts] imports.  [extractFrontMatter] may
    throw on a malformed block; the others are total. *)
Class Collaborators := {
  cleanupComments : string -> string;
  extractFrontMatter : string -> Result (string * FrontMatterMetadata);
  detectInit : string -> option Obj;
  detectDirective : string -> string -> Detected;
  removeDirectives : string -> string;
  cleanAndMerge : Obj -> Obj -> Obj
}.

Record FrontmatterResult := {
  fm_title : option string;
  fm_config : Obj;
  fm_text : string
}.

Record DirectiveResult := {
  dr_text : string;
  dr_directive : Obj
}.

Record Preprocessed := {
  pp_code : string;
  pp_title : option string;
  pp_config : Obj
}.

Definition is_wrap (d : Directive) : bool :=
  match dir_type d with
  | Some t => String.eqb t "wrap"
  | None => false
  end.

Section Pipeline.
Context `{Collaborators}.

(** Module code is strict: the assignment [config.gantt.displayMode = ...]
    throws a [TypeError] when [config.gantt] is a truthy primitive. *)
Definition processFrontmatter (code : string) : Result FrontmatterResult :=
  match extractFrontMatter code with
  | Err e => Err e
  | Ok (text, metadata) =>
      let displayMode := md_displayMode metadata in
      let title := md_title metadata in
      let config := default [] (md_config metadata) in
      if truthy_str displayMode then
        let config :=
          if negb (truthy (obj_get "gantt" config))
          then obj_set "gantt" (JObj []) config
          else config in
        match obj_get "gantt" config with
        | JObj gantt =>
            let gantt := obj_set "displayMode" (JStr (default "" displayMode)) gantt in
            Ok {| fm_title := title;
                  fm_config := obj_set "gantt" (JObj gantt) config;
                  fm_text := text |}
        | _ => Err (TypeError "Cannot create property 'displayMode'")
        end
      else Ok {| fm_title := title; fm_config := config; fm_text := text |}
  end.

Definition processDirectives (code : string) : DirectiveResult :=
  let initDirective := default [] (detectInit code) in
  let wrapDirectives := detectDirective code "wrap" in
  let initDirective :=
    match wrapDirectives with
    | DArray ds => obj_set "wrap" (JBool (existsb is_wrap ds)) initDirective
    | DSingle d => if is_wrap d then obj_set "wrap" (JBool true) initDirective else initDirective
    | DNullish => initDirective
    end in
  {| dr_text := removeDirectives code; dr_directive := initDirective |}.

Definition preprocessDiagram (code : string) : Result Preprocessed :=
  let cleanedCode := cleanupText code in
  match processFrontmatter cleanedCode with
  | Err e => Err e
  | Ok frontMatterResult =>
      let directiveResult := processDirectives (fm_text frontMatterResult) in
      let config := cleanAndMerge (fm_config frontMatterResult) (dr_directive directiveResult) in
      let code := cleanupComments (dr_text directiveResult) in
      Ok {| pp_code := code; pp_title := fm_title frontMatterResult; pp_config := config |}
  end.

End Pipeline.

(** Some detected directive has the discriminant [wrap]. *)
Definition detects_wrap (r : Detected) : Prop :=
  match r with
  | DArray ds => exists d, d ∈ ds /\ dir_type d = Some "wrap"
  | DSingle d => dir_type d = Some "wrap"
  | DNullish => False
  end.

(** The detector answered with a value that is not an array and whose
    type is not [wrap]. *)
Definition single_not_wrap (r : Detected) : Prop :=
  match r with
  | DArray _ => False
  | DSingle d => dir_type d <> Some "wrap"
  | DNullish => True
  end.

(** [config.gantt] can take the legacy property: it is absent or falsy
    (and then replaced by a fresh object), or it is an object. *)
Definition gantt_assignable (v : JVal) : Prop :=
  truthy v = false \/ exists g, v = JObj g.

(** Front-matter metadata whose configuration sets [gantt] to a string. *)
Definition gantt_string_metadata : FrontMatterMetadata :=
  {| md_title := None; md_displayMode := Some "compact";
     md_config := Some [("gantt", JStr "compact")] |}.

(** Front-matter metadata with a theme and gantt settings next to
    [displayMode]. *)
Definition gantt_settings_metadata : FrontMatterMetadata :=
  {| md_title := Some "Plan"; md_displayMode := Some "compact";
     md_config := Some [("theme", JStr "dark");
                        ("gantt", JObj [("barHeight", JNum 20); ("displayMode", JStr "")])] |}.

End Preprocess.

(** ** Diagram.ts *)

Module DiagramFacade.

(** A diagram definition bundles a model, a parser, a renderer and an
    optional initializer.  The bundle is opaque to [fromText] but for the
    optional capabilities it probes, so each object is a name with the
    capabilities it exposes; what a call into one of them does is
    recorded as an event of the run. *)
Record Db := {
  db_name : string;
  db_clear : bool;            (* exposes [clear] *)
  db_setDiagramTitle : bool   (* exposes [setDiagramTitle] *)
}.

Record Parser := {
  parser_name : string;
  parser_parser : bool        (* exposes the nested [parser.parser] *)
}.

Record Renderer := { renderer_name : string }.

Record DiagramDefinition := {
  db : Db;
  parser : Parser;
  renderer : Renderer;
  init : bool                 (* exposes [init] *)
}.

#[global] Instance Db_eq_dec : EqDecision Db.
Proof. solve_decision. Defined.
#[global] Instance Parser_eq_dec : EqDecision Parser.
Proof. solve_decision. Defined.
#[global] Instance Renderer_eq_dec : EqDecision Renderer.
Proof. solve_decision. Defined.
#[global] Instance DiagramDefinition_eq_dec : EqDecision DiagramDefinition.
Proof. solve_decision. Defined.

Inductive Event :=
| EvLoad (type : string)                          (* [loader()] invoked *)
| EvRegister (id : string) (d : DiagramDefinition) (* [registerDiagram(id, diagram)] called *)
| EvSetYY (p : Parser) (d : Db)                   (* [parser.parser.yy = db] *)
| EvClear (d : Db)                                (* [db.clear()] *)
| EvInit (d : DiagramDefinition) (config : Obj)   (* [init(config)] *)
| EvSetDiagramTitle (d : Db) (title : string)     (* [db.setDiagramTitle(title)] *)
| EvParse (p : Parser) (text : string).           (* [parser.parse(text)] *)

(** The outcome of awaiting a loader.  A loader is external code: what
    it answers may depend on everything that happened before. *)
Inductive LoadResult :=
| Loaded (id : string) (diagram : DiagramDefinition)
| LoadRejected (e : Error).

Definition Loader := list Event -> LoadResult.

(** The process-wide state [fromText] works on: the registered
    definitions, the loaders known to the detectors, and the calls made
    so far. *)
Record Registry := {
  diagrams : gmap string DiagramDefinition;
  loaders : gmap string Loader;
  trace : list Event
}.

(** Computations over the registry that may throw.  A throw leaves the
    state as it was when it happened. *)
Definition M (A : Type) : Type := Registry -> Result A * Registry.

Definition ret {A} (a : A) : M A := fun s => (Ok a, s).
Definition throw {A} (e : Error) : M A := fun s => (Err e, s).
Definition bind {A B} (m : M A) (k : A -> M B) : M B := fun s =>
  match m s with
  | (Ok a, s') => k a s'
  | (Err e, s') => (Err e, s')
  end.
Definition try_catch {A} (body : M A) (handler : Error -> M A) : M A := fun s =>
  match body s with
  | (Ok a, s') => (Ok a, s')
  | (Err e, s') => handler e s'
  end.
Definition lift {A} (r : Result A) : M A := fun s => (r, s).
Definition emit (ev : Event) : M unit := fun s =>
  (Ok tt, {| diagrams := diagrams s; loaders := loaders s; trace := trace s ++ [ev] |}).
Definition when (b : bool) (m : M unit) : M unit := if b then m else ret tt.

Declare Scope js_scope.
Delimit Scope js_scope with js.
Notation "'bind!' x <- m ; k" := (bind m (fun x => k))
  (at level 10, x name, m at level 100, k at level 200) : js_scope.
Notation "'exec!' m ; k" := (bind m (fun _ => k))
  (at level 10, m at level 100, k at level 200) : js_scope.
Local Open Scope js_scope.

(** Modelled from the spec: [getDiagram] of diagram-api/diagramAPI.js,
    which is not part of the sources.  The registry is a mapping from
    type tag to definition; fetching a registered tag answers with its
    definition and touches nothing, fetching any other tag throws. *)
Definition getDiagram (type : string) : M DiagramDefinition := fun s =>
  match diagrams s !! type with
  | Some d => (Ok d, s)
  | None => (Err (DiagramNotFoundError type), s)
  end.

(** Modelled from the spec: [getDiagramLoader] of
    diagram-api/detectType.js, which is not part of the sources.  The
    registry state holds a mapping from type tag to loader; the answer
    is [undefined] for a tag without one. *)
Definition getDiagramLoader (type : string) : M (option Loader) := fun s =>
  (Ok (loaders s !! type), s).

(** [await loader()] *)
Definition await_loader (type : string) (loader : Loader) : M (string * DiagramDefinition) :=
  fun s =>
    let s' := {| diagrams := diagrams s; loaders := loaders s; trace := trace s ++ [EvLoad type] |} in
    match loader (trace s) with
    | Loaded id diagram => (Ok (id, diagram), s')
    | LoadRejected e => (Err e, s')
    end.

(** The remaining imports of [Diagram.ts] and the grammar behind
    [parser.parse]; none of them is part of the sources. *)
Class Environment := {
  getConfig : Obj;
  detectType : string -> Obj -> Result string;
  encodeEntities : string -> string;
  registerDiagram : string -> DiagramDefinition ->
                    gmap string DiagramDefinition -> Result (gmap string DiagramDefinition);
  parse : Parser -> string -> option Error
}.

Record DiagramMetadata := { title : option string }.

Record Diagram := {
  type : string;
  text : string;
  diagram_db : Db;
  diagram_parser : Parser;
  diagram_renderer : Renderer
}.

Section FromText.
Context `{Environment}.

Definition call_registerDiagram (id : string) (diagram : DiagramDefinition) : M unit := fun s =>
  let tr := (trace s ++ [EvRegister id diagram])%list in
  match registerDiagram id diagram (diagrams s) with
  | Ok ds => (Ok tt, {| diagrams := ds; loaders := loaders s; trace := tr |})
  | Err e => (Err e, {| diagrams := diagrams s; loaders := loaders s; trace := tr |})
  end.

Definition call_parse (p : Parser) (text : string) : M unit := fun s =>
  let s' := {| diagrams := diagrams s; loaders := loaders s; trace := trace s ++ [EvParse p text] |} in
  match parse p text with
  | None => (Ok tt, s')
  | Some e => (Err e, s')
  end.

(** Lines 30 to 43: the [try { getDiagram(type) } catch { ... }] block. *)
Definition ensure_loaded (type : string) : M unit :=
  try_catch (exec! getDiagram type; ret tt)
    (fun _ =>
       bind! loader <- getDiagramLoader type;
       match loader with
       | None => throw (UnknownDiagramError ("Diagram " ++ type ++ " not found."))
       | Some loader =>
           bind! r <- await_loader type loader;
           call_registerDiagram (fst r) (snd r)
       end).

(** Lines 30 to 50: resolve a type tag to its definition. *)
Definition resolve (type : string) : M DiagramDefinition :=
  exec! ensure_loaded type;
  getDiagram type.

(** Lines 51 to 64: bind the model to the parser, reset it, initialise,
    apply the caller's title, parse, and build the facade.  The calls
    into the model and the initializer are taken to return normally;
    [parser.parse] may reject. *)
Definition construct (config : Obj) (type text : string) (metadata : DiagramMetadata)
    (d : DiagramDefinition) : M Diagram :=
  exec! when (parser_parser (parser d)) (emit (EvSetYY (parser d) (db d)));
  exec! when (db_clear (db d)) (emit (EvClear (db d)));
  exec! when (init d) (emit (EvInit d config));
  exec! when (truthy_str (title metadata))
          (when (db_setDiagramTitle (db d))
             (emit (EvSetDiagramTitle (db d) (default "" (title metadata)))));
  exec! call_parse (parser d) text;
  ret {| type := type; text := text; diagram_db := db d;
         diagram_parser := parser d; diagram_renderer := renderer d |}.

Definition fromText (text : string) (metadata : DiagramMetadata) : M Diagram :=
  let config := getConfig in
  bind! type <- lift (detectType text config);
  let text := encodeEntities text ++ String lf "" in
  bind! d <- resolve type;
  construct config type text metadata d.

End FromText.

(** Modelled from the spec: [registerDiagram] of
    diagram-api/diagramAPI.js, which is not part of the sources.
    Registration is idempotent: the same id with an identical definition
    is a no-op, a different definition under a registered id is a
    conflict reported as an error, and a new id is added. *)
Definition registerDiagram_model (id : string) (d : DiagramDefinition)
    (ds : gmap string DiagramDefinition) : Result (gmap string DiagramDefinition) :=
  match ds !! id with
  | Some d' =>
      if decide (d' = d) then Ok ds
      else Err (OtherError ("Diagram " ++ id ++ " already registered."))
  | None => Ok (<[id := d]> ds)
  end.

(** An environment to run [fromText] in: the type tag is the first word
    of the text, the text holds no entity to encode, and the grammar
    accepts every text but the empty line. *)
Definition sample_environment : Environment := {|
  getConfig := [];
  detectType := fun text _ =>
    match fst (span is_word (list_ascii_of_string text)) with
    | [] => Err (UnknownDiagramError "No diagram type detected")
    | tag => Ok (string_of_list_ascii tag)
    end;
  encodeEntities := fun text => text;
  registerDiagram := registerDiagram_model;
  parse := fun _ text =>
    if String.eqb text (String lf "") then Some (OtherError "Parse error") else None
|}.

Definition flowchart_definition : DiagramDefinition := {|
  db := {| db_name := "flowDb"; db_clear := true; db_setDiagramTitle := true |};
  parser := {| parser_name := "flowParser"; parser_parser := true |};
  renderer := {| renderer_name := "flowRenderer" |};
  init := true
|}.

Definition is_load (ev : Event) : bool :=
  match ev with EvLoad _ => true | _ => false end.

Definition is_register (ev : Event) : bool :=
  match ev with EvRegister _ _ => true | _ => false end.

Definition is_parse (ev : Event) : bool :=
  match ev with EvParse _ _ => true | _ => false end.

(** A loader whose first attempt fails and whose later attempts
    succeed. *)
Definition flaky_loader (id : string) (d : DiagramDefinition) : Loader := fun history =>
  if existsb is_load history then Loaded id d
  else LoadRejected (OtherError "Failed to fetch dynamically imported module").

Definition steady_loader (id : string) (d : DiagramDefinition) : Loader := fun _ =>
  Loaded id d.

(** A registry that knows the flowchart definition already, and one that
    only knows how to load it. *)
Definition registered_flowchart : Registry :=
  {| diagrams := {[ "flowchart" := flowchart_definition ]}; loaders := ∅; trace := [] |}.

Definition flaky_flowchart : Registry :=
  {| diagrams := ∅;
     loaders := {[ "flowchart" := flaky_loader "flowchart" flowchart_definition ]};
     trace := [] |}.

Definition steady_flowchart : Registry :=
  {| diagrams := ∅;
     loaders := {[ "flowchart" := steady_loader "flowchart" flowchart_definition ]};
     trace := [] |}.

(** The state after [evs] more calls. *)
Definition push (evs : list Event) (s : Registry) : Registry :=
  {| diagrams := diagrams s; loaders := loaders s; trace := trace s ++ evs |}.

(** The events of [construct] that come before the parse. *)
Definition setup_events (config : Obj) (metadata : DiagramMetadata) (d : DiagramDefinition)
  : list Event :=
  ((if parser_parser (parser d) then [EvSetYY (parser d) (db d)] else [])
   ++ (if db_clear (db d) then [EvClear (db d)] else [])
   ++ (if init d then [EvInit d config] else [])
   ++ (if truthy_str (title metadata) && db_setDiagramTitle (db d)
       then [EvSetDiagramTitle (db d) (default "" (title metadata))] else []))%list.

Section Outcomes.
Context `{Environment}.

(** The five ways a resolution can go. *)
Inductive Resolution (type : string) (s : Registry)
  : Result DiagramDefinition -> Registry -> Prop :=
| ResRegistered d :
    diagrams s !! type = Some d ->
    Resolution type s (Ok d) s
| ResUnknown :
    diagrams s !! type = None -> loaders s !! type = None ->
    Resolution type s (Err (UnknownDiagramError ("Diagram " ++ type ++ " not found."))) s
| ResLoadRejected (loader : Loader) e :
    diagrams s !! type = None -> loaders s !! type = Some loader ->
    loader (trace s) = LoadRejected e ->
    Resolution type s (Err e) (push [EvLoad type] s)
| ResRegisterRejected (loader : Loader) id diagram e :
    diagrams s !! type = None -> loaders s !! type = Some loader ->
    loader (trace s) = Loaded id diagram ->
    registerDiagram id diagram (diagrams s) = Err e ->
    Resolution type s (Err e) (push [EvLoad type; EvRegister id diagram] s)
| ResLoaded (loader : Loader) id diagram ds :
    diagrams s !! type = None -> loaders s !! type = Some loader ->
    loader (trace s) = Loaded id diagram ->
    registerDiagram id diagram (diagrams s) = Ok ds ->
    Resolution type s
      (match ds !! type with Some d => Ok d | None => Err (DiagramNotFoundError type) end)
      {| diagrams := ds; loaders := loaders s;
         trace := trace s ++ [EvLoad type; EvRegister id diagram] |}.

End Outcomes.

(** The sample environment with a grammar that wants a body after the
    diagram keyword: it rejects a text without a space. *)
Definition picky_environment : Environment := {|
  getConfig := [];
  detectType := detectType (Environment := sample_environment);
  encodeEntities := fun text => text;
  registerDiagram := registerDiagram_model;
  parse := fun _ text =>
    if existsb (Ascii.eqb " ") (list_ascii_of_string text) then None
    else Some (OtherError "Parse error on line 1")
|}.


(** [getParser()] and [getType()] *)
Definition getParser (this : Diagram) : Parser := diagram_parser this.
Definition getType (this : Diagram) : string := type this.

(** [render(id, version)] hands over to [this.renderer.draw(this.text, id,
    version, this)]: the renderer called and the four arguments of the
    call. *)
Record DrawCall := {
  draw_renderer : Renderer;
  draw_text : string;
  draw_id : string;
  draw_version : string;
  draw_diagram : Diagram
}.

Definition render (this : Diagram) (id version : string) : DrawCall :=
  {| draw_renderer := diagram_renderer this;
     draw_text := text this;
     draw_id := id;
     draw_version := version;
     draw_diagram := this |}.

(** A registry whose loader for [flowchart] delivers the definition
    under another id. *)
Definition renamed_flowchart : Registry :=
  {| diagrams := ∅;
     loaders := {[ "flowchart" := steady_loader "flowchart-v2" flowchart_definition ]};
     trace := [] |}.

End DiagramFacade.

(** ** The collaborators of [preprocess.ts], from their contracts

    None of the imported functions is part of the sources.  The models
    below follow the contracts of the specification on the concrete
    syntax Mermaid documents: a front-matter block between two [---]
    lines at the start of the text, directives written
    [%%{name: arguments}%%], and comment lines starting with [%%]. *)

Module Contracts.
Import Preprocess.

Local Open Scope char_scope.

Definition is_space (c : ascii) : bool := Ascii.eqb c " " || Ascii.eqb c "009".

Fixpoint drop_spaces (l : list ascii) : list ascii :=
  match l with
  | c :: t => if is_space c then drop_spaces t else l
  | [] => []
  end.

Definition trim (l : list ascii) : list ascii :=
  rev (drop_spaces (rev (drop_spaces l))).

Fixpoint strip_prefix (p l : list ascii) : option (list ascii) :=
  match p, l with
  | [], _ => Some l
  | a :: p', b :: l' => if Ascii.eqb a b then strip_prefix p' l' else None
  | _ :: _, [] => None
  end.

(** The text before the first occurrence of [needle] and the text after it. *)
Fixpoint find_sub (needle l : list ascii) : option (list ascii * list ascii) :=
  match strip_prefix needle l with
  | Some rest => Some ([], rest)
  | None =>
      match l with
      | [] => None
      | c :: t =>
          match find_sub needle t with
          | Some (before, rest) => Some (c :: before, rest)
          | None => None
          end
      end
  end.

Fixpoint split_lines (l : list ascii) : list (list ascii) :=
  match l with
  | [] => [[]]
  | c :: t =>
      if Ascii.eqb c lf then [] :: split_lines t
      else match split_lines t with
           | h :: r => (c :: h) :: r
           | [] => [[c]]
           end
  end.

Fixpoint join_lines (ls : list (list ascii)) : list ascii :=
  match ls with
  | [] => []
  | [l] => l
  | l :: ls' => l ++ lf :: join_lines ls'
  end.

Definition chars (s : string) : list ascii := list_ascii_of_string s.
Definition str (l : list ascii) : string := string_of_list_ascii l.

(** *** Front matter *)

Definition is_delimiter (line : list ascii) : bool :=
  match strip_prefix (chars "---") line with
  | Some rest => match drop_spaces rest with [] => true | _ => false end
  | None => false
  end.

Fixpoint until_delimiter (lines : list (list ascii))
  : option (list (list ascii) * list (list ascii)) :=
  match lines with
  | [] => None
  | l :: t =>
      if is_delimiter l then Some ([], t)
      else match until_delimiter t with
           | Some (block, after) => Some (l :: block, after)
           | None => None
           end
  end.

(** One [key: value] line of the block. *)
Definition entry (line : list ascii) : option (string * string) :=
  match find_sub [":"] line with
  | Some (k, v) => Some (str (trim k), str (trim v))
  | None => None
  end.

Definition scalar (key : string) (block : list (list ascii)) : option string :=
  match List.find (fun e => String.eqb (fst e) key) (omap entry block) with
  | Some (_, v) => if String.eqb v "" then None else Some v
  | None => None
  end.

(** Modelled from the spec: [extractFrontMatter] of
    diagram-api/frontmatter.js, which is not part of the sources.  It
    answers with the text after the front-matter block and the metadata
    of the block; without a block at the start of the text the metadata
    is empty and the text is the input unchanged.  The block is read as
    scalar [key: value] lines, of which [title] and [displayMode] make
    the metadata; a nested [config] mapping is outside this model. *)
Definition extractFrontMatter_model (text : string) : Result (string * FrontMatterMetadata) :=
  let none := {| md_title := None; md_displayMode := None; md_config := None |} in
  match split_lines (chars text) with
  | first :: rest =>
      if is_delimiter first then
        match until_delimiter rest with
        | Some (block, after) =>
            Ok (str (join_lines after),
                {| md_title := scalar "title" block;
                   md_displayMode := scalar "displayMode" block;
                   md_config := None |})
        | None => Ok (text, none)
        end
      else Ok (text, none)
  | [] => Ok (text, none)
  end.

(** *** Directives *)

(** A directive at the head of the input: its body and the input after
    the closing marker. *)
Definition match_directive (l : list ascii) : option (list ascii * list ascii) :=
  match strip_prefix (chars "%%{") l with
  | Some l1 => find_sub (chars "}%%") l1
  | None => None
  end.

Fixpoint directives_fuel (fuel : nat) (l : list ascii) : list (list ascii) :=
  match fuel with
  | O => []
  | S n =>
      match match_directive l with
      | Some (body, rest) => body :: directives_fuel n rest
      | None =>
          match l with
          | [] => []
          | _ :: t => directives_fuel n t
          end
      end
  end.

(** The bodies of all directives of a text, in order. *)
Definition directive_bodies (l : list ascii) : list (list ascii) :=
  directives_fuel (length l) l.

(** Name and argument text of a directive body. *)
Definition directive_parts (body : list ascii) : string * list ascii :=
  let '(name, rest) := span is_word (drop_spaces body) in
  (str name,
   match drop_spaces rest with
   | c :: args => if Ascii.eqb c ":" then trim args else trim rest
   | [] => []
   end).

Definition directive_of (body : list ascii) : Directive :=
  let '(name, args) := directive_parts body in
  {| dir_type := Some name;
     dir_args := match args with [] => JNull | _ => JStr (str args) end |}.

(** Modelled from the spec: [utils.detectDirective], which is not part of
    the sources.  It detects all directives of the given type: zero, one
    or many matches, each carrying its discriminant type.  One match is
    handed back as it is, several as an array, none as a nullish value
    (the three shapes [processDirectives] tells apart). *)
Definition detectDirective_model (text type : string) : Detected :=
  match List.filter (fun d => bool_decide (dir_type d = Some type))
                    (map directive_of (directive_bodies (chars text))) with
  | [] => DNullish
  | [d] => DSingle d
  | ds => DArray ds
  end.

(** Modelled from the spec: [utils.detectInit], which is not part of the
    sources.  At most one init configuration object, possibly absent:
    the arguments of the first [init] directive, read by the JSON reader
    [parseArgs] the model is given. *)
Definition detectInit_model (parseArgs : string -> Obj) (text : string) : option Obj :=
  match List.find (fun p => String.eqb (fst p) "init" || String.eqb (fst p) "initialize")
                  (map directive_parts (directive_bodies (chars text))) with
  | Some (_, args) => Some (parseArgs (str args))
  | None => None
  end.

Definition directive_remove : Matcher := fun l =>
  match match_directive l with
  | Some (_, rest) => Some ([], rest)
  | None => None
  end.

(** One pass over the text that drops every directive it finds. *)
Definition strip_directives (l : list ascii) : list ascii :=
  replace_all directive_remove l.

(** Passes repeated until one of them removes nothing: what is left of
    two directives can form a directive of its own. *)
Fixpoint strip_until_stable (fuel : nat) (l : list ascii) : list ascii :=
  match fuel with
  | O => l
  | S n =>
      let l' := strip_directives l in
      if Nat.eqb (length l') (length l) then l' else strip_until_stable n l'
  end.

(** Modelled from the spec: [removeDirectives] of utils.js, which is not
    part of the sources: the text with all directive syntax removed,
    such that removing twice gives what removing once gives. *)
Definition removeDirectives_model (text : string) : string :=
  str (strip_until_stable (length (chars text)) (chars text)).

(** *** Comments *)

Definition is_comment (line : list ascii) : bool :=
  match strip_prefix (chars "%%") (drop_spaces line) with
  | Some rest => match rest with c :: _ => negb (Ascii.eqb c "{") | [] => true end
  | None => false
  end.

(** Modelled from the spec: [cleanupComments] of
    diagram-api/comments.js, which is not part of the sources: the text
    with all comment lines removed. *)
Definition cleanupComments_model (text : string) : string :=
  str (join_lines (List.filter (fun l => negb (is_comment l)) (split_lines (chars text)))).

(** *** Merging *)

(** Deep merge of [b] into [a]: nested mappings combine key by key, and
    where both set a key to anything else the value of [b] stands. *)
Fixpoint merge_val (a b : JVal) {struct b} : JVal :=
  match b with
  | JObj bs =>
      match a with
      | JObj fields =>
          JObj ((fix go (acc : Obj) (bs : Obj) {struct bs} : Obj :=
                   match bs with
                   | [] => acc
                   | (k, v) :: bs' => go (obj_set k (merge_val (obj_get k acc) v) acc) bs'
                   end) fields bs)
      | _ => b
      end
  | JUndefined => a
  | _ => b
  end.

(** Modelled from the spec: [cleanAndMerge] of utils.js, which is not
    part of the sources.  A deterministic deep merge of the front-matter
    configuration and the directive configuration; the fixed precedence
    of this model lets the directive win. *)
Definition cleanAndMerge_model (defaultData data : Obj) : Obj :=
  match merge_val (JObj defaultData) (JObj data) with
  | JObj o => o
  | _ => defaultData
  end.

Definition model (parseArgs : string -> Obj) : Collaborators := {|
  cleanupComments := cleanupComments_model;
  extractFrontMatter := extractFrontMatter_model;
  detectInit := detectInit_model parseArgs;
  detectDirective := detectDirective_model;
  removeDirectives := removeDirectives_model;
  cleanAndMerge := cleanAndMerge_model
|}.

(** The same collaborators around a front-matter extractor that finds
    the given metadata in every text. *)
Definition with_metadata (parseArgs : string -> Obj) (metadata : FrontMatterMetadata)
  : Collaborators := {|
  cleanupComments := cleanupComments_model;
  extractFrontMatter := fun text => Ok (text, metadata);
  detectInit := detectInit_model parseArgs;
  detectDirective := detectDirective_model;
  removeDirectives := removeDirectives_model;
  cleanAndMerge := cleanAndMerge_model
|}.

(** The same collaborators around a directive detector with a fixed
    answer. *)
Definition with_detected (init : option Obj) (detected : Detected) : Collaborators := {|
  cleanupComments := cleanupComments_model;
  extractFrontMatter := extractFrontMatter_model;
  detectInit := fun _ => init;
  detectDirective := fun _ _ => detected;
  removeDirectives := removeDirectives_model;
  cleanAndMerge := cleanAndMerge_model
|}.

Definition nl : string := String lf "".

(** The front-matter scenario of the specification. *)
Definition round_trip_input : string :=
  ("---" ++ nl ++ "title: My Flow" ++ nl ++ "---" ++ nl ++ "flowchart TD" ++ nl ++ "A-->B")%string.

Definition compact_gantt_input : string :=
  ("---" ++ nl ++ "displayMode: compact" ++ nl ++ "---" ++ nl ++ "gantt")%string.

Definition two_wraps_input : string :=
  ("%%{wrap}%%" ++ nl ++ "%%{wrap}%%" ++ nl ++ "sequenceDiagram")%string.

Definition one_wrap_input : string :=
  ("%%{wrap}%%" ++ nl ++ "sequenceDiagram")%string.

End Contracts.

(** * Properties *)

Local Open Scope list_scope.

(** ** The scan of a global replace *)

Section ReplaceAll.
Variable m : Matcher.

Hypothesis m_shrinks : shrinking m.

Lemma matcher_nil : m [] = None.
Proof.
  destruct (m []) as [[r rest]|] eqn:E; [|reflexivity].
  apply m_shrinks in E. simpl in E. lia.
Qed.

Lemma replace_fuel_irrelevant n1 :
  forall n2 l, length l <= n1 -> length l <= n2 ->
    replace_fuel m n1 l = replace_fuel m n2 l.
Proof.
  induction n1 as [|n1 IH]; intros n2 l H1 H2.
  - destruct l; [|simpl in H1; lia].
    destruct n2; simpl; [reflexivity|]. now rewrite matcher_nil.
  - destruct n2 as [|n2].
    + destruct l; [|simpl in H2; lia]. simpl. now rewrite matcher_nil.
    + simpl. destruct (m l) as [[r rest]|] eqn:E.
      * apply m_shrinks in E. f_equal. apply IH; lia.
      * destruct l as [|c t]; [reflexivity|]. f_equal. simpl in *. apply IH; lia.
Qed.

(** With the length of the input as fuel the scan always runs to the end
    of the input: it obeys the equation of the unbounded scan. *)
Lemma replace_all_unfold l :
  replace_all m l =
  match m l with
  | Some (r, rest) => r ++ replace_all m rest
  | None => match l with [] => [] | c :: t => c :: replace_all m t end
  end.
Proof.
  unfold replace_all. destruct l as [|c t].
  - simpl. now rewrite matcher_nil.
  - simpl. destruct (m (c :: t)) as [[r rest]|] eqn:E.
    + apply m_shrinks in E. simpl in E. f_equal. apply replace_fuel_irrelevant; lia.
    + reflexivity.
Qed.

Lemma replace_all_nil : replace_all m [] = [].
Proof. reflexivity. Qed.

Lemma replace_all_match l r rest :
  m l = Some (r, rest) -> replace_all m l = r ++ replace_all m rest.
Proof. intros E. rewrite replace_all_unfold, E. reflexivity. Qed.

Lemma replace_all_skip c t :
  m (c :: t) = None -> replace_all m (c :: t) = c :: replace_all m t.
Proof. intros E. rewrite replace_all_unfold, E. reflexivity. Qed.

(** Induction along the scan. *)
Lemma replace_all_ind (P : list ascii -> Prop) :
  P [] ->
  (forall l r rest, m l = Some (r, rest) -> P rest -> P l) ->
  (forall c t, m (c :: t) = None -> P t -> P (c :: t)) ->
  forall l, P l.
Proof.
  intros Hnil Hmatch Hskip l.
  remember (length l) as n eqn:Hn. revert l Hn.
  induction n as [n IH] using lt_wf_ind. intros l ->.
  destruct (m l) as [[r rest]|] eqn:E.
  - apply (Hmatch l r rest E). apply (IH (length rest)); [|reflexivity].
    now apply m_shrinks in E.
  - destruct l as [|c t]; [assumption|].
    apply Hskip; [assumption|]. apply (IH (length t)); simpl; [lia|reflexivity].
Qed.

End ReplaceAll.

(** ** Character classes and greedy runs *)

Lemma span_app_eq p l : fst (span p l) ++ snd (span p l) = l.
Proof.
  induction l as [|c t IH]; simpl; [reflexivity|].
  destruct (p c); [|reflexivity].
  destruct (span p t) as [a b]. simpl in *. now f_equal.
Qed.

Lemma span_fst_all p l : forallb p (fst (span p l)) = true.
Proof.
  induction l as [|c t IH]; simpl; [reflexivity|].
  destruct (p c) eqn:E; [|reflexivity].
  destruct (span p t) as [a b]. simpl in *. now rewrite E.
Qed.

Lemma span_snd_stops p l : stops p (snd (span p l)).
Proof.
  induction l as [|c t IH]; simpl; [exact I|].
  destruct (p c) eqn:E; [|exact E].
  destruct (span p t) as [a b]. exact IH.
Qed.

Lemma span_intro p a b :
  forallb p a = true -> stops p b -> span p (a ++ b) = (a, b).
Proof.
  intros Ha Hb. induction a as [|c a IH]; simpl in *.
  - destruct b as [|d b]; [reflexivity|]. simpl in *. now rewrite Hb.
  - apply andb_prop in Ha as [Hc Ha]. rewrite Hc, (IH Ha). reflexivity.
Qed.

Lemma span_all p l : forallb p l = true -> span p l = (l, []).
Proof.
  intros Hl. rewrite <- (app_nil_r l) at 1. now apply span_intro.
Qed.

Lemma span_snd_nil p l : snd (span p l) = [] -> forallb p l = true.
Proof.
  intros E. rewrite <- (span_app_eq p l), E, app_nil_r. apply span_fst_all.
Qed.

(** ** The two patterns of [cleanupText] *)

Lemma match_attr_inv l v rest :
  match_attr l = Some (v, rest) ->
  l = eq_sign :: dquote :: v ++ dquote :: rest /\ forallb (not_char dquote) v = true.
Proof.
  destruct l as [|a [|b l1]]; simpl; try discriminate.
  destruct (Ascii.eqb a eq_sign && Ascii.eqb b dquote) eqn:G; [|discriminate].
  apply andb_prop in G as [Ha Hb].
  apply Ascii.eqb_eq in Ha, Hb. subst a b.
  pose proof (span_app_eq (not_char dquote) l1) as Happ.
  pose proof (span_fst_all (not_char dquote) l1) as Hall.
  pose proof (span_snd_stops (not_char dquote) l1) as Hstop.
  destruct (span (not_char dquote) l1) as [v' l2]. simpl in *.
  destruct l2 as [|d rest']; [discriminate|].
  intros [= -> ->]. simpl in Hstop. unfold not_char in Hstop.
  apply negb_false_iff, Ascii.eqb_eq in Hstop. subst d.
  split; [now rewrite <- Happ | assumption].
Qed.

Lemma match_attr_intro v rest :
  forallb (not_char dquote) v = true ->
  match_attr (eq_sign :: dquote :: v ++ dquote :: rest) = Some (v, rest).
Proof.
  intros Hv. cbn [match_attr].
  replace (Ascii.eqb eq_sign eq_sign && Ascii.eqb dquote dquote) with true by reflexivity.
  rewrite span_intro; [reflexivity | assumption | reflexivity].
Qed.

Lemma match_tag_inv l tag attributes rest :
  match_tag l = Some (tag, attributes, rest) ->
  l = lt_sign :: tag ++ attributes ++ gt_sign :: rest
  /\ tag <> [] /\ forallb is_word tag = true
  /\ stops is_word attributes /\ forallb (not_char gt_sign) attributes = true.
Proof.
  destruct l as [|c l1]; simpl; [discriminate|].
  destruct (Ascii.eqb c lt_sign) eqn:Hc; [|discriminate].
  apply Ascii.eqb_eq in Hc. subst c.
  pose proof (span_app_eq is_word l1) as Happ1.
  pose proof (span_fst_all is_word l1) as Hall1.
  pose proof (span_snd_stops is_word l1) as Hstop1.
  destruct (span is_word l1) as [tag' l2]. simpl in *.
  destruct tag' as [|t0 tag']; [discriminate|].
  pose proof (span_app_eq (not_char gt_sign) l2) as Happ2.
  pose proof (span_fst_all (not_char gt_sign) l2) as Hall2.
  pose proof (span_snd_stops (not_char gt_sign) l2) as Hstop2.
  destruct (span (not_char gt_sign) l2) as [attrs' l3]. simpl in *.
  destruct l3 as [|d rest']; [discriminate|].
  intros [= <- <- <-]. simpl in Hstop2. unfold not_char in Hstop2.
  apply negb_false_iff, Ascii.eqb_eq in Hstop2. subst d.
  subst l2 l1. repeat split; try assumption; try discriminate.
  destruct attrs'; [exact I | exact Hstop1].
Qed.

Lemma match_tag_intro tag attributes rest :
  tag <> [] -> forallb is_word tag = true ->
  stops is_word attributes -> forallb (not_char gt_sign) attributes = true ->
  match_tag (lt_sign :: tag ++ attributes ++ gt_sign :: rest) = Some (tag, attributes, rest).
Proof.
  intros Hne Htag Hstop Hattrs. cbn [match_tag].
  replace (Ascii.eqb lt_sign lt_sign) with true by reflexivity.
  rewrite span_intro; [| assumption | destruct attributes; [reflexivity | exact Hstop]].
  destruct tag as [|t0 tag]; [contradiction|].
  rewrite span_intro; [reflexivity | assumption | reflexivity].
Qed.

Lemma attr_rewrite_shrinks : shrinking attr_rewrite.
Proof.
  intros l r rest. unfold attr_rewrite.
  destruct (match_attr l) as [[v rest']|] eqn:E; [|discriminate].
  intros [= <- <-]. apply match_attr_inv in E as [-> _].
  simpl. rewrite length_app. simpl. lia.
Qed.

Lemma tag_rewrite_shrinks : shrinking tag_rewrite.
Proof.
  intros l r rest. unfold tag_rewrite.
  destruct (match_tag l) as [[[tag attrs] rest']|] eqn:E; [|discriminate].
  intros [= <- <-]. apply match_tag_inv in E as (-> & _).
  simpl. rewrite !length_app. simpl. lia.
Qed.

(** ** The rewrite only turns double quotes into single quotes *)

Lemma requoted_refl l : requoted l l.
Proof. induction l; constructor; [now left | assumption]. Qed.

Lemma requoted_app a a' b b' : requoted a a' -> requoted b b' -> requoted (a ++ b) (a' ++ b').
Proof. apply Forall2_app. Qed.

Lemma qswap_blind p a b : quote_blind p -> qswap a b -> p a = p b.
Proof. intros Hp [->|[-> ->]]; [reflexivity | exact Hp]. Qed.

Lemma forallb_requoted p l l' :
  quote_blind p -> requoted l l' -> forallb p l = forallb p l'.
Proof.
  intros Hp Hr. induction Hr as [|a b l l' Hab _ IH]; simpl; [reflexivity|].
  now rewrite (qswap_blind p a b Hp Hab), IH.
Qed.

Lemma stops_requoted p l l' :
  quote_blind p -> requoted l l' -> stops p l -> stops p l'.
Proof.
  intros Hp Hr. destruct Hr as [|a b l l' Hab _]; simpl; [trivial|].
  now rewrite (qswap_blind p a b Hp Hab).
Qed.

Lemma no_dquote_requoted l l' :
  requoted l l' -> forallb (not_char dquote) l = true -> forallb (not_char dquote) l' = true.
Proof.
  intros Hr. induction Hr as [|a b l l' Hab _ IH]; simpl; [trivial|].
  intros H. apply andb_prop in H as [Ha Hl]. rewrite (IH Hl), andb_true_r.
  destruct Hab as [->|[-> ->]]; [assumption | reflexivity].
Qed.

Lemma span_requoted p l l' :
  quote_blind p -> requoted l l' ->
  requoted (fst (span p l)) (fst (span p l')) /\ requoted (snd (span p l)) (snd (span p l')).
Proof.
  intros Hp Hr. induction Hr as [|a b l l' Hab Hr IH]; simpl.
  - split; constructor.
  - rewrite (qswap_blind p a b Hp Hab). destruct (p b).
    + destruct (span p l) as [x y], (span p l') as [x' y']. simpl in *.
      destruct IH as [IH1 IH2]. split; [now constructor | assumption].
    + split; [constructor | now constructor].
Qed.

Lemma is_word_blind : quote_blind is_word.
Proof. reflexivity. Qed.

Lemma not_gt_blind : quote_blind (not_char gt_sign).
Proof. reflexivity. Qed.

Lemma is_lt_blind : quote_blind (fun c => Ascii.eqb c lt_sign).
Proof. reflexivity. Qed.


(** ** The attribute rewrite *)

Lemma replace_attrs_match l v rest :
  match_attr l = Some (v, rest) ->
  replace_attrs l = eq_sign :: squote :: v ++ squote :: replace_attrs rest.
Proof.
  intros E. unfold replace_attrs.
  rewrite (replace_all_match _ attr_rewrite_shrinks l (eq_sign :: squote :: v ++ [squote]) rest).
  - simpl. now rewrite <- app_assoc.
  - unfold attr_rewrite. now rewrite E.
Qed.

Lemma replace_attrs_skip c t :
  match_attr (c :: t) = None -> replace_attrs (c :: t) = c :: replace_attrs t.
Proof.
  intros E. apply (replace_all_skip _ attr_rewrite_shrinks).
  unfold attr_rewrite. now rewrite E.
Qed.

Lemma attrs_ind (P : list ascii -> Prop) :
  P [] ->
  (forall v rest, forallb (not_char dquote) v = true -> P rest ->
                  P (eq_sign :: dquote :: v ++ dquote :: rest)) ->
  (forall c t, match_attr (c :: t) = None -> P t -> P (c :: t)) ->
  forall l, P l.
Proof.
  intros Hnil Hmatch Hskip.
  apply (replace_all_ind attr_rewrite attr_rewrite_shrinks); [assumption| |].
  - intros l r rest E HP. unfold attr_rewrite in E.
    destruct (match_attr l) as [[v rest']|] eqn:E'; [|discriminate].
    injection E as <- <-. apply match_attr_inv in E' as [-> Hv]. now apply Hmatch.
  - intros c t E HP. apply Hskip; [|assumption]. unfold attr_rewrite in E.
    destruct (match_attr (c :: t)) as [[v rest']|]; [discriminate | reflexivity].
Qed.

Lemma replace_attrs_requoted l : requoted l (replace_attrs l).
Proof.
  induction l as [|v rest Hv IH|c t E IH] using attrs_ind.
  - constructor.
  - rewrite (replace_attrs_match _ v rest (match_attr_intro v rest Hv)).
    constructor; [now left|]. constructor; [now right|].
    apply requoted_app; [apply requoted_refl|]. constructor; [now right | assumption].
  - rewrite (replace_attrs_skip c t E). constructor; [now left | assumption].
Qed.

Lemma match_attr_no_dquote l :
  forallb (not_char dquote) l = true -> match_attr l = None.
Proof.
  intros Hl. destruct (match_attr l) as [[v rest]|] eqn:E; [|reflexivity].
  apply match_attr_inv in E as [-> _]. discriminate Hl.
Qed.

(** Attributes without a double quote ([='...'] or unquoted) are left as
    they are. *)
Lemma replace_attrs_no_dquote l :
  forallb (not_char dquote) l = true -> replace_attrs l = l.
Proof.
  induction l as [|c t IH]; intros Hl; [reflexivity|].
  rewrite replace_attrs_skip by now apply match_attr_no_dquote.
  simpl in Hl. apply andb_prop in Hl as [_ Ht]. now rewrite IH.
Qed.

Lemma match_attr_before_squote c p q :
  forallb (not_char dquote) p = true -> match_attr (c :: p ++ squote :: q) = None.
Proof.
  intros Hp. destruct p as [|d p]; simpl.
  - now rewrite andb_false_r.
  - simpl in Hp. apply andb_prop in Hp as [Hd _]. unfold not_char in Hd.
    apply negb_true_iff in Hd. now rewrite Hd, andb_false_r.
Qed.

Lemma replace_attrs_prefix p q :
  forallb (not_char dquote) p = true ->
  replace_attrs (p ++ squote :: q) = p ++ squote :: replace_attrs q.
Proof.
  induction p as [|c p IH]; intros Hp.
  - simpl. apply replace_attrs_skip. destruct q; reflexivity.
  - simpl in Hp. apply andb_prop in Hp as [_ Hp]. simpl.
    rewrite replace_attrs_skip by now apply match_attr_before_squote.
    now rewrite IH.
Qed.

Lemma match_attr_requoted_none c t t' :
  requoted t t' -> match_attr (c :: t) = None -> match_attr (c :: t') = None.
Proof.
  intros Hr. destruct Hr as [|b b' l1 l1' Hb Hr]; [trivial|]. simpl.
  destruct (Ascii.eqb c eq_sign); [|reflexivity]. simpl.
  destruct (Ascii.eqb b' dquote) eqn:Hb'; [|reflexivity].
  apply Ascii.eqb_eq in Hb'. subst b'.
  assert (b = dquote) as -> by (destruct Hb as [->|[-> _]]; reflexivity).
  replace (Ascii.eqb dquote dquote) with true by reflexivity.
  pose proof (span_snd_nil (not_char dquote) l1) as Hnil.
  destruct (span (not_char dquote) l1) as [v l2]. simpl in Hnil.
  destruct l2; [|discriminate]. intros _.
  rewrite (span_all _ l1'); [reflexivity|].
  apply (no_dquote_requoted l1); [assumption | now apply Hnil].
Qed.

Lemma replace_attrs_idempotent l : replace_attrs (replace_attrs l) = replace_attrs l.
Proof.
  induction l as [|v rest Hv IH|c t E IH] using attrs_ind.
  - reflexivity.
  - rewrite (replace_attrs_match _ v rest (match_attr_intro v rest Hv)).
    change (eq_sign :: squote :: v ++ squote :: replace_attrs rest)
      with ((eq_sign :: squote :: v) ++ squote :: replace_attrs rest).
    rewrite replace_attrs_prefix by (simpl; exact Hv). now rewrite IH.
  - rewrite (replace_attrs_skip c t E).
    rewrite replace_attrs_skip; [now rewrite IH|].
    apply (match_attr_requoted_none c t); [apply replace_attrs_requoted | assumption].
Qed.

(** ** The tag rewrite *)

Lemma replace_tags_match l tag attributes rest :
  match_tag l = Some (tag, attributes, rest) ->
  replace_tags l = lt_sign :: tag ++ replace_attrs attributes ++ gt_sign :: replace_tags rest.
Proof.
  intros E. unfold replace_tags.
  rewrite (replace_all_match _ tag_rewrite_shrinks l
             (lt_sign :: tag ++ replace_attrs attributes ++ [gt_sign]) rest).
  - simpl. now rewrite <- !app_assoc.
  - unfold tag_rewrite. now rewrite E.
Qed.

Lemma replace_tags_skip c t :
  match_tag (c :: t) = None -> replace_tags (c :: t) = c :: replace_tags t.
Proof.
  intros E. apply (replace_all_skip _ tag_rewrite_shrinks).
  unfold tag_rewrite. now rewrite E.
Qed.

Lemma tags_ind (P : list ascii -> Prop) :
  P [] ->
  (forall l tag attributes rest,
      match_tag l = Some (tag, attributes, rest) -> P rest -> P l) ->
  (forall c t, match_tag (c :: t) = None -> P t -> P (c :: t)) ->
  forall l, P l.
Proof.
  intros Hnil Hmatch Hskip.
  apply (replace_all_ind tag_rewrite tag_rewrite_shrinks); [assumption| |].
  - intros l r rest E HP. unfold tag_rewrite in E.
    destruct (match_tag l) as [[[tag attrs] rest']|] eqn:E'; [|discriminate].
    injection E as <- <-. now apply (Hmatch l tag attrs rest').
  - intros c t E HP. apply Hskip; [|assumption]. unfold tag_rewrite in E.
    destruct (match_tag (c :: t)) as [[[tag attrs] rest']|]; [discriminate | reflexivity].
Qed.

Lemma replace_tags_requoted l : requoted l (replace_tags l).
Proof.
  induction l as [|l tag attrs rest E IH|c t E IH] using tags_ind.
  - constructor.
  - rewrite (replace_tags_match l tag attrs rest E).
    apply match_tag_inv in E as (-> & _).
    constructor; [now left|].
    apply requoted_app; [apply requoted_refl|].
    apply requoted_app; [apply replace_attrs_requoted|].
    constructor; [now left | assumption].
  - rewrite (replace_tags_skip c t E). constructor; [now left | assumption].
Qed.

Lemma match_tag_requoted_none l l' :
  requoted l l' -> match_tag l = None -> match_tag l' = None.
Proof.
  intros Hr. destruct Hr as [|c c' l1 l1' Hc Hr]; [trivial|]. simpl.
  rewrite (qswap_blind _ c c' is_lt_blind Hc).
  destruct (Ascii.eqb c' lt_sign); [|reflexivity].
  destruct (span_requoted is_word l1 l1' is_word_blind Hr) as [Htag Hl2].
  destruct (span is_word l1) as [tag l2], (span is_word l1') as [tag' l2']. simpl in *.
  destruct Htag as [|? ? ? ? _ _]; [reflexivity|].
  destruct (span_requoted (not_char gt_sign) l2 l2' not_gt_blind Hl2) as [_ Hl3].
  destruct (span (not_char gt_sign) l2) as [attrs l3],
           (span (not_char gt_sign) l2') as [attrs' l3']. simpl in *.
  destruct Hl3; [reflexivity | discriminate].
Qed.

Lemma replace_tags_idempotent l : replace_tags (replace_tags l) = replace_tags l.
Proof.
  induction l as [|l tag attrs rest E IH|c t E IH] using tags_ind.
  - reflexivity.
  - rewrite (replace_tags_match l tag attrs rest E).
    apply match_tag_inv in E as (_ & Hne & Htag & Hstop & Hattrs).
    pose proof (replace_attrs_requoted attrs) as Hq.
    rewrite (replace_tags_match _ tag (replace_attrs attrs) (replace_tags rest)).
    + now rewrite replace_attrs_idempotent, IH.
    + apply match_tag_intro; try assumption.
      * now apply (stops_requoted is_word attrs _ is_word_blind Hq).
      * now rewrite <- (forallb_requoted _ attrs _ not_gt_blind Hq).
  - rewrite (replace_tags_skip c t E).
    rewrite replace_tags_skip; [now rewrite IH|].
    apply (match_tag_requoted_none (c :: t)); [|assumption].
    constructor; [now left | apply replace_tags_requoted].
Qed.

(** ** Line endings *)

Lemma replace_crlf_no_cr l : forallb (not_char cr) (replace_crlf l) = true.
Proof.
  induction l as [|c t IH]; [reflexivity|]. simpl.
  destruct (Ascii.eqb c cr) eqn:Hc.
  - destruct t as [|c' t']; [reflexivity|].
    destruct (Ascii.eqb c' lf) eqn:Hc'.
    + apply Ascii.eqb_eq in Hc'. subst c'. exact IH.
    + simpl. exact IH.
  - simpl. unfold not_char at 1. now rewrite Hc.
Qed.

Lemma replace_crlf_id l : forallb (not_char cr) l = true -> replace_crlf l = l.
Proof.
  induction l as [|c t IH]; [reflexivity|]. simpl. intros H.
  apply andb_prop in H as [Hc Ht]. unfold not_char in Hc.
  apply negb_true_iff in Hc. rewrite Hc. now rewrite IH.
Qed.

Lemma not_cr_blind : quote_blind (not_char cr).
Proof. reflexivity. Qed.

Lemma cleanupChars_idempotent l : cleanupChars (cleanupChars l) = cleanupChars l.
Proof.
  unfold cleanupChars.
  rewrite (replace_crlf_id (replace_tags (replace_crlf l))).
  - apply replace_tags_idempotent.
  - rewrite <- (forallb_requoted _ (replace_crlf l) _ not_cr_blind (replace_tags_requoted _)).
    apply replace_crlf_no_cr.
Qed.

(** C5. Text normalisation is idempotent: for every input string,
    normalising the normalised text gives the normalised text again. *)
Theorem cleanupText_idempotent (x : string) :
  cleanupText (cleanupText x) = cleanupText x.
Proof.
  unfold cleanupText.
  now rewrite list_ascii_of_string_of_list_ascii, cleanupChars_idempotent.
Qed.

(** ** Where the quote rewrite applies *)

Lemma span_app_stop p x d r :
  p d = false -> span p (x ++ d :: r) = (fst (span p x), snd (span p x) ++ d :: r).
Proof.
  intros Hd. induction x as [|c x IH]; simpl.
  - now rewrite Hd.
  - destruct (p c); [|reflexivity].
    rewrite IH. destruct (span p x) as [a b]. reflexivity.
Qed.

Lemma forallb_span_snd q p l : forallb q l = true -> forallb q (snd (span p l)) = true.
Proof.
  intros Hl. rewrite <- (span_app_eq p l), forallb_app in Hl.
  now apply andb_prop in Hl as [_ Hl].
Qed.

(** A [<] followed by a word character opens a tag as soon as a [>]
    follows: the tag is the longest run of word characters, the
    attributes are everything up to the first [>]. *)
Lemma match_tag_open c x rest :
  is_word c = true -> forallb (not_char gt_sign) x = true ->
  match_tag (lt_sign :: c :: x ++ gt_sign :: rest)
  = Some (c :: fst (span is_word x), snd (span is_word x), rest).
Proof.
  intros Hc Hx. cbn [match_tag].
  replace (Ascii.eqb lt_sign lt_sign) with true by reflexivity.
  cbn [span]. rewrite Hc, (span_app_stop is_word x gt_sign rest) by reflexivity.
  rewrite span_intro; [reflexivity | now apply forallb_span_snd | reflexivity].
Qed.

Lemma replace_tags_open c x rest :
  is_word c = true -> forallb (not_char gt_sign) x = true ->
  replace_tags (lt_sign :: c :: x ++ gt_sign :: rest)
  = lt_sign :: c :: fst (span is_word x) ++ replace_attrs (snd (span is_word x))
             ++ gt_sign :: replace_tags rest.
Proof.
  intros Hc Hx. now rewrite (replace_tags_match _ _ _ _ (match_tag_open c x rest Hc Hx)).
Qed.

Lemma match_tag_not_lt c t : Ascii.eqb c lt_sign = false -> match_tag (c :: t) = None.
Proof. intros Hc. simpl. now rewrite Hc. Qed.

(** Text before the first [<] is copied. *)
Lemma replace_tags_prefix p l :
  forallb (not_char lt_sign) p = true -> replace_tags (p ++ l) = p ++ replace_tags l.
Proof.
  induction p as [|c p IH]; intros Hp; [reflexivity|].
  simpl in Hp. apply andb_prop in Hp as [Hc Hp]. simpl.
  rewrite replace_tags_skip, IH; [reflexivity | assumption |].
  apply match_tag_not_lt. now apply negb_true_iff in Hc.
Qed.

Lemma replace_tags_no_lt l : forallb (not_char lt_sign) l = true -> replace_tags l = l.
Proof.
  intros Hl. rewrite <- (app_nil_r l) at 1. rewrite replace_tags_prefix by assumption.
  now rewrite app_nil_r.
Qed.

Lemma match_tag_no_gt l : forallb (not_char gt_sign) l = true -> match_tag l = None.
Proof.
  intros Hl. destruct (match_tag l) as [[[tag attrs] rest]|] eqn:E; [|reflexivity].
  apply match_tag_inv in E as (-> & _). simpl in Hl.
  rewrite !forallb_app in Hl. simpl in Hl.
  now rewrite !andb_false_r in Hl.
Qed.

(** A text without [>] is copied. *)
Lemma replace_tags_no_gt l : forallb (not_char gt_sign) l = true -> replace_tags l = l.
Proof.
  induction l as [|c t IH]; intros Hl; [reflexivity|].
  rewrite replace_tags_skip by now apply match_tag_no_gt.
  simpl in Hl. apply andb_prop in Hl as [_ Ht]. now rewrite IH.
Qed.


Lemma match_attr_not_eq c t : Ascii.eqb c eq_sign = false -> match_attr (c :: t) = None.
Proof. intros Hc. destruct t; simpl; [reflexivity|]. now rewrite Hc. Qed.

Lemma is_word_not_eq c : is_word c = true -> Ascii.eqb c eq_sign = false.
Proof.
  intros Hc. destruct (Ascii.eqb c eq_sign) eqn:E; [|reflexivity].
  apply Ascii.eqb_eq in E. subst c. discriminate Hc.
Qed.

(** The attribute rewrite passes over the word characters of the tag. *)
Lemma replace_attrs_word_prefix t a :
  forallb is_word t = true -> replace_attrs (t ++ a) = t ++ replace_attrs a.
Proof.
  induction t as [|c t IH]; intros Ht; [reflexivity|].
  simpl in Ht. apply andb_prop in Ht as [Hc Ht]. simpl.
  rewrite replace_attrs_skip, IH; [reflexivity | assumption |].
  now apply match_attr_not_eq, is_word_not_eq.
Qed.

(** Between a tag opener and the first [>] that follows it, the text is
    rewritten by the attribute rewrite and by nothing else. *)
Lemma replace_tags_tag c w rest :
  is_word c = true -> forallb (not_char gt_sign) w = true ->
  replace_tags (lt_sign :: c :: w ++ gt_sign :: rest)
  = lt_sign :: c :: replace_attrs w ++ gt_sign :: replace_tags rest.
Proof.
  intros Hc Hw. rewrite replace_tags_open by assumption.
  rewrite <- (span_app_eq is_word w) at 3.
  rewrite replace_attrs_word_prefix by apply span_fst_all.
  now rewrite <- app_assoc.
Qed.


(** *** The rules that determine the two rewrites *)



Lemma match_tag_none_no_gt d t :
  is_word d = true -> match_tag (lt_sign :: d :: t) = None ->
  forallb (not_char gt_sign) (lt_sign :: d :: t) = true.
Proof.
  intros Hd Hnone.
  pose proof (span_app_eq (not_char gt_sign) t) as Happ.
  pose proof (span_fst_all (not_char gt_sign) t) as Hall.
  pose proof (span_snd_stops (not_char gt_sign) t) as Hstop.
  destruct (span (not_char gt_sign) t) as [x r]. simpl in Happ, Hall, Hstop.
  assert (not_char gt_sign d = true) as Hdgt.
  { unfold not_char. apply negb_true_iff. destruct (Ascii.eqb d gt_sign) eqn:E; [|reflexivity].
    apply Ascii.eqb_eq in E. subst d. discriminate Hd. }
  destruct r as [|g r].
  - rewrite app_nil_r in Happ. subst x. cbn [forallb]. now rewrite Hdgt, Hall.
  - simpl in Hstop. unfold not_char in Hstop.
    apply negb_false_iff, Ascii.eqb_eq in Hstop. subst g t.
    now rewrite (match_tag_open d x r Hd Hall) in Hnone.
Qed.

(** The rules of the attribute rewrite leave no choice: a function that
    obeys them is the attribute rewrite. *)
Lemma replace_attrs_determined (f : list ascii -> list ascii) :
  f [] = [] ->
  (forall v rest, forallb (not_char dquote) v = true ->
     f (eq_sign :: dquote :: v ++ dquote :: rest) = eq_sign :: squote :: v ++ squote :: f rest) ->
  (forall c t, c <> eq_sign -> f (c :: t) = c :: f t) ->
  (forall t, stops (fun d => Ascii.eqb d dquote) t -> f (eq_sign :: t) = eq_sign :: f t) ->
  (forall t, forallb (not_char dquote) t = true ->
     f (eq_sign :: dquote :: t) = eq_sign :: dquote :: t) ->
  forall l, f l = replace_attrs l.
Proof.
  intros Hnil Hpat Hne Halone Hopen l.
  induction l as [|v rest Hv IH|c t E IH] using attrs_ind.
  - now rewrite Hnil.
  - rewrite (Hpat v rest Hv), IH.
    now rewrite (replace_attrs_match _ v rest (match_attr_intro v rest Hv)).
  - rewrite (replace_attrs_skip c t E).
    destruct (Ascii.eqb c eq_sign) eqn:Hc.
    2: { apply Ascii.eqb_neq in Hc. now rewrite (Hne c t Hc), IH. }
    apply Ascii.eqb_eq in Hc. subst c.
    destruct t as [|d t1]; [now rewrite (Halone [] I), IH|].
    destruct (Ascii.eqb d dquote) eqn:Hd.
    2: { now rewrite (Halone (d :: t1) Hd), IH. }
    apply Ascii.eqb_eq in Hd. subst d.
    assert (forallb (not_char dquote) t1 = true) as Ht1.
    { apply (span_snd_nil (not_char dquote)). simpl in E.
      destruct (span (not_char dquote) t1) as [v l2]. simpl.
      destruct l2; [reflexivity | discriminate E]. }
    rewrite (Hopen t1 Ht1). f_equal.
    rewrite replace_attrs_skip by (destruct t1; reflexivity).
    now rewrite replace_attrs_no_dquote.
Qed.

(** Likewise for the tag rewrite. *)
Lemma replace_tags_determined (f : list ascii -> list ascii) :
  f [] = [] ->
  (forall c w rest, is_word c = true -> forallb (not_char gt_sign) w = true ->
     f (lt_sign :: c :: w ++ gt_sign :: rest)
     = lt_sign :: c :: replace_attrs w ++ gt_sign :: f rest) ->
  (forall c t, c <> lt_sign -> f (c :: t) = c :: f t) ->
  (forall d t, is_word d = false -> f (lt_sign :: d :: t) = lt_sign :: f (d :: t)) ->
  (forall l, forallb (not_char gt_sign) l = true -> f l = l) ->
  forall l, f l = replace_tags l.
Proof.
  intros Hnil Htag Hne Hnw Hnogt l.
  induction l as [|l tag attrs rest E IH|c t E IH] using tags_ind.
  - now rewrite Hnil.
  - rewrite (replace_tags_match l tag attrs rest E).
    apply match_tag_inv in E as (-> & Hnonempty & Hword & _ & Hattrs).
    destruct tag as [|c tag]; [contradiction|].
    simpl in Hword. apply andb_prop in Hword as [Hc Hword].
    assert (forallb (not_char gt_sign) (tag ++ attrs) = true) as Hw.
    { rewrite forallb_app, Hattrs, andb_true_r.
      clear -Hword. induction tag as [|d tag IHt]; [reflexivity|].
      simpl in *. apply andb_prop in Hword as [Hd Hword]. rewrite (IHt Hword), andb_true_r.
      unfold not_char. apply negb_true_iff.
      destruct (Ascii.eqb d gt_sign) eqn:E; [|reflexivity].
      apply Ascii.eqb_eq in E. subst d. discriminate Hd. }
    simpl. rewrite app_assoc, (Htag c (tag ++ attrs) rest Hc Hw), IH.
    rewrite replace_attrs_word_prefix by assumption. now rewrite <- app_assoc.
  - rewrite (replace_tags_skip c t E).
    destruct (Ascii.eqb c lt_sign) eqn:Hc.
    2: { apply Ascii.eqb_neq in Hc. now rewrite (Hne c t Hc), IH. }
    apply Ascii.eqb_eq in Hc. subst c.
    destruct t as [|d t1]; [now rewrite (Hnogt [lt_sign] eq_refl)|].
    destruct (is_word d) eqn:Hd.
    2: { now rewrite (Hnw d t1 Hd), IH. }
    pose proof (match_tag_none_no_gt d t1 Hd E) as Hall.
    rewrite (Hnogt _ Hall). f_equal.
    assert (forallb (not_char gt_sign) (d :: t1) = true) as Hdt by exact Hall.
    symmetry. now apply replace_tags_no_gt.
Qed.




Example cleanupText_line_endings :
  cleanupText (String "a" (String cr (String lf (String "b" (String cr (String "c" (String lf "d")))))))
  = String "a" (String lf (String "b" (String lf (String "c" (String lf "d"))))).
Proof. vm_compute. reflexivity. Qed.

Example cleanupText_quotes :
  let q := String dquote "" in
  cleanupText ("<rect fill=" ++ q ++ "red" ++ q ++ " stroke=" ++ q ++ "blue" ++ q ++ "> say "
               ++ q ++ "hi" ++ q)%string
  = ("<rect fill='red' stroke='blue'> say " ++ q ++ "hi" ++ q)%string.
Proof. vm_compute. reflexivity. Qed.

(** ** Objects *)

Lemma obj_get_set_eq k v o : obj_get k (obj_set k v o) = v.
Proof.
  induction o as [|[k' v'] o IH]; simpl.
  - now rewrite String.eqb_refl.
  - destruct (String.eqb k k') eqn:E; simpl.
    + now rewrite String.eqb_refl.
    + now rewrite E.
Qed.

Lemma obj_get_set_ne k k' v o : k <> k' -> obj_get k' (obj_set k v o) = obj_get k' o.
Proof.
  intros Hne. induction o as [|[k0 v0] o IH]; simpl.
  - destruct (String.eqb k' k) eqn:E; [|reflexivity].
    apply String.eqb_eq in E. congruence.
  - destruct (String.eqb k k0) eqn:E; simpl.
    + apply String.eqb_eq in E. subst k0.
      destruct (String.eqb k' k) eqn:E'; [|reflexivity].
      apply String.eqb_eq in E'. congruence.
    + destruct (String.eqb k' k0); [reflexivity | exact IH].
Qed.

Lemma obj_set_set k v v' o : obj_set k v (obj_set k v' o) = obj_set k v o.
Proof.
  induction o as [|[k' v0] o IH]; simpl.
  - now rewrite String.eqb_refl.
  - destruct (String.eqb k k') eqn:E; simpl.
    + now rewrite String.eqb_refl.
    + now rewrite E, IH.
Qed.

Lemma obj_has_set k v o : obj_has k (obj_set k v o) = true.
Proof.
  induction o as [|[k' v'] o IH]; simpl.
  - now rewrite String.eqb_refl.
  - destruct (String.eqb k k') eqn:E; simpl.
    + now rewrite String.eqb_refl.
    + now rewrite E.
Qed.

(** ** Front matter and directives *)

Module PreprocessProps.
Import Preprocess.

Lemma is_wrap_true d : is_wrap d = true <-> dir_type d = Some "wrap".
Proof.
  unfold is_wrap. destruct (dir_type d) as [t|]; [|split; discriminate].
  rewrite String.eqb_eq. split; [now intros -> | now intros [= ->]].
Qed.

Lemma is_wrap_false d : is_wrap d = false <-> dir_type d <> Some "wrap".
Proof.
  rewrite <- is_wrap_true. destruct (is_wrap d); split; congruence.
Qed.

Lemma existsb_is_wrap ds :
  existsb is_wrap ds = true <-> exists d, d ∈ ds /\ dir_type d = Some "wrap".
Proof.
  rewrite existsb_exists. split; intros (d & Hin & Hd); exists d.
  - split; [now apply list_elem_of_In | now apply is_wrap_true].
  - split; [now apply list_elem_of_In | now apply is_wrap_true].
Qed.

Section Pipeline.
Context `{Collaborators}.

Lemma wrap_of_detection code :
  detects_wrap (detectDirective code "wrap") ->
  dr_directive (processDirectives code)
  = obj_set "wrap" (JBool true) (default [] (detectInit code)).
Proof.
  unfold processDirectives. cbn [dr_directive].
  destruct (detectDirective code "wrap") as [ds|d|]; simpl; intros Hw.
  - apply existsb_is_wrap in Hw. now rewrite Hw.
  - apply is_wrap_true in Hw. now rewrite Hw.
  - contradiction.
Qed.

Lemma directive_left_alone code :
  single_not_wrap (detectDirective code "wrap") ->
  dr_directive (processDirectives code) = default [] (detectInit code).
Proof.
  unfold processDirectives. cbn [dr_directive].
  destruct (detectDirective code "wrap") as [ds|d|]; simpl; [contradiction| |reflexivity].
  intros Hd. apply is_wrap_false in Hd. now rewrite Hd.
Qed.

(** C4. If any detected directive has the discriminant [wrap], the
    directive object handed back by the directive step has [wrap] set to
    [true], however many such directives there are: two texts that each
    hold at least one wrap directive agree on it. *)
Theorem wrap_detected :
  (forall code,
      detects_wrap (detectDirective code "wrap") ->
      obj_get "wrap" (dr_directive (processDirectives code)) = JBool true)
  /\ (forall code code',
        detects_wrap (detectDirective code "wrap") ->
        detects_wrap (detectDirective code' "wrap") ->
        obj_get "wrap" (dr_directive (processDirectives code))
        = obj_get "wrap" (dr_directive (processDirectives code'))).
Proof.
  assert (Hone : forall code,
             detects_wrap (detectDirective code "wrap") ->
             obj_get "wrap" (dr_directive (processDirectives code)) = JBool true).
  { intros code Hw. rewrite (wrap_of_detection code Hw). apply obj_get_set_eq. }
  split; [exact Hone|].
  intros code code' Hw Hw'. now rewrite (Hone code Hw), (Hone code' Hw').
Qed.

(** C9. When the detector answers with an array that holds no directive
    of type [wrap], the directive step sets [wrap] to [false], over
    whatever the init directive supplied; [wrap] is left alone, and so
    can be unset in the result, only when the detector answers with a
    value that is not an array and whose type is not [wrap]. *)
Theorem wrap_reset_by_array :
  (forall code ds,
      detectDirective code "wrap" = DArray ds ->
      (forall d, d ∈ ds -> dir_type d <> Some "wrap") ->
      dr_directive (processDirectives code)
      = obj_set "wrap" (JBool false) (default [] (detectInit code))
      /\ obj_get "wrap" (dr_directive (processDirectives code)) = JBool false)
  /\ (forall code,
        single_not_wrap (detectDirective code "wrap") ->
        dr_directive (processDirectives code) = default [] (detectInit code))
  /\ (forall code,
        obj_has "wrap" (dr_directive (processDirectives code)) = false ->
        single_not_wrap (detectDirective code "wrap")).
Proof.
  split; [|split].
  - intros code ds Hds Hnone.
    assert (existsb is_wrap ds = false) as Hex.
    { destruct (existsb is_wrap ds) eqn:E; [|reflexivity].
      apply existsb_is_wrap in E as (d & Hin & Hd). now destruct (Hnone d Hin). }
    unfold processDirectives. cbn [dr_directive]. rewrite Hds, Hex.
    split; [reflexivity | apply obj_get_set_eq].
  - exact directive_left_alone.
  - intros code. unfold processDirectives. cbn [dr_directive].
    destruct (detectDirective code "wrap") as [ds|d|]; simpl.
    + now rewrite obj_has_set.
    + destruct (is_wrap d) eqn:E.
      * now rewrite obj_has_set.
      * intros _. now apply is_wrap_false.
    + trivial.
Qed.

(** C8, as amended. If the front-matter metadata holds a non-empty
    [displayMode] and [config.gantt] is absent, falsy or an object, the
    front-matter step hands back a configuration whose
    [gantt.displayMode] is that value; the [gantt] object is created
    when it was absent or falsy, and title and text pass through. *)
Theorem displayMode_projected code text metadata mode :
  extractFrontMatter code = Ok (text, metadata) ->
  md_displayMode metadata = Some mode ->
  mode <> "" ->
  gantt_assignable (obj_get "gantt" (default [] (md_config metadata))) ->
  exists r gantt,
    processFrontmatter code = Ok r
    /\ obj_get "gantt" (fm_config r) = JObj gantt
    /\ obj_get "displayMode" gantt = JStr mode
    /\ (truthy (obj_get "gantt" (default [] (md_config metadata))) = false ->
        fm_config r = obj_set "gantt" (JObj [("displayMode", JStr mode)])
                        (default [] (md_config metadata)))
    /\ fm_title r = md_title metadata /\ fm_text r = text.
Proof.
  intros Hex Hmode Hne Hgantt. unfold processFrontmatter. rewrite Hex, Hmode.
  assert (truthy_str (Some mode) = true) as ->.
  { simpl. apply negb_true_iff. now apply String.eqb_neq. }
  set (config := default [] (md_config metadata)) in *.
  destruct (truthy (obj_get "gantt" config)) eqn:Ht; simpl.
  - destruct Hgantt as [Hf|[g Hg]]; [congruence|]. rewrite Hg.
    eexists _, _. split; [reflexivity|]. cbn [fm_config fm_title fm_text].
    rewrite obj_get_set_eq. split; [reflexivity|]. rewrite obj_get_set_eq.
    repeat split; try reflexivity. discriminate.
  - rewrite obj_get_set_eq.
    eexists _, _. split; [reflexivity|]. cbn [fm_config fm_title fm_text].
    rewrite obj_get_set_eq. split; [reflexivity|].
    split; [reflexivity|]. repeat split; try reflexivity.
    intros _. apply obj_set_set.
Qed.

End Pipeline.

(** What the pipeline hands back for a text without [displayMode],
    without an init directive and without a wrap directive, in terms of
    its collaborators. *)
Lemma preprocessDiagram_plain `{Collaborators} code text metadata :
  extractFrontMatter (cleanupText code) = Ok (text, metadata) ->
  md_displayMode metadata = None ->
  detectInit text = None ->
  single_not_wrap (detectDirective text "wrap") ->
  preprocessDiagram code
  = Ok {| pp_code := cleanupComments (removeDirectives text);
          pp_title := md_title metadata;
          pp_config := cleanAndMerge (default [] (md_config metadata)) [] |}.
Proof.
  intros Hex Hmode Hinit Hwrap.
  unfold preprocessDiagram, processFrontmatter. rewrite Hex, Hmode.
  cbn [truthy_str fm_text fm_config fm_title].
  rewrite (directive_left_alone text Hwrap), Hinit. reflexivity.
Qed.

Import Contracts.

Lemma wrap_detected_witness :
  obj_get "wrap" (dr_directive (processDirectives (H := model (fun _ => [])) two_wraps_input))
  = obj_get "wrap" (dr_directive (processDirectives (H := model (fun _ => [])) one_wrap_input)).
Proof.
  apply (proj2 (wrap_detected (H := model (fun _ => [])))).
  - vm_compute. eexists. split; [left | reflexivity].
  - vm_compute. reflexivity.
Defined.

Lemma wrap_reset_by_array_witness :
  obj_get "wrap"
    (dr_directive (processDirectives
                     (H := with_detected (Some [("wrap", JBool true)]) (DArray []))
                     "sequenceDiagram"))
  = JBool false.
Proof.
  apply (proj1 (wrap_reset_by_array
                  (H := with_detected (Some [("wrap", JBool true)]) (DArray [])))
           "sequenceDiagram" [] eq_refl).
  intros d Hd. inversion Hd.
Defined.

Lemma displayMode_projected_witness :
  exists r gantt,
    processFrontmatter (H := model (fun _ => [])) compact_gantt_input = Ok r
    /\ obj_get "gantt" (fm_config r) = JObj gantt
    /\ obj_get "displayMode" gantt = JStr "compact".
Proof.
  destruct (displayMode_projected (H := model (fun _ => [])) compact_gantt_input "gantt"
              {| md_title := None; md_displayMode := Some "compact"; md_config := None |}
              "compact" eq_refl eq_refl ltac:(discriminate) (or_introl eq_refl))
    as (r & gantt & Hr & Hg & Hd & _).
  exists r, gantt. repeat split; assumption.
Defined.

(** The claim of C8 as written fails for an empty [displayMode]: the
    metadata holds one, the truthiness guard skips the projection, and
    the configuration handed back has no [gantt] object. *)
Lemma displayMode_empty_not_projected :
  let metadata := {| md_title := None; md_displayMode := Some ""; md_config := None |} in
  let collaborators := with_metadata (fun _ => []) metadata in
  extractFrontMatter (Collaborators := collaborators) "gantt" = Ok ("gantt", metadata)
  /\ md_displayMode metadata = Some ""
  /\ processFrontmatter (H := collaborators) "gantt"
     = Ok {| fm_title := None; fm_config := []; fm_text := "gantt" |}
  /\ obj_has "gantt" [] = false.
Proof. repeat split. Qed.

(** C2. The front-matter scenario: the text with a [title: My Flow]
    block in front of [flowchart TD / A-->B] preprocesses to that body as
    code, the title [My Flow] and an empty configuration. *)
Theorem preprocess_round_trip (parseArgs : string -> Obj) :
  preprocessDiagram (H := model parseArgs) round_trip_input
  = Ok {| pp_code := ("flowchart TD" ++ nl ++ "A-->B")%string;
          pp_title := Some "My Flow";
          pp_config := [] |}.
Proof.
  rewrite (preprocessDiagram_plain (H := model parseArgs) round_trip_input
             ("flowchart TD" ++ nl ++ "A-->B")%string
             {| md_title := Some "My Flow"; md_displayMode := None; md_config := None |}).
  - vm_compute. reflexivity.
  - vm_compute. reflexivity.
  - reflexivity.
  - vm_compute. reflexivity.
  - vm_compute. exact I.
Qed.

End PreprocessProps.

(** ** Resolution and the facade *)

Module DiagramProps.
Import DiagramFacade.
Local Open Scope js_scope.

Lemma push_nil s : push [] s = s.
Proof. destruct s. unfold push. simpl. now rewrite app_nil_r. Qed.

Lemma push_push a b s : push b (push a s) = push (a ++ b) s.
Proof. unfold push. simpl. now rewrite app_assoc. Qed.

Lemma when_emit b ev s : when b (emit ev) s = (Ok tt, push (if b then [ev] else []) s).
Proof. destruct b; simpl; [reflexivity | now rewrite push_nil]. Qed.

Section FromText.
Context `{Environment}.

Lemma setup_events_quiet config metadata d :
  Forall (fun ev => is_load ev = false /\ is_register ev = false /\ is_parse ev = false)
         (setup_events config metadata d).
Proof.
  unfold setup_events.
  repeat (apply Forall_app; split);
    match goal with |- Forall _ (if ?b then _ else _) => destruct b end;
    repeat constructor.
Qed.

Lemma construct_run config type text metadata d s :
  construct config type text metadata d s
  = (match parse (parser d) text with
     | None => Ok {| type := type; text := text; diagram_db := db d;
                     diagram_parser := parser d; diagram_renderer := renderer d |}
     | Some e => Err e
     end,
     push (setup_events config metadata d ++ [EvParse (parser d) text]) s).
Proof.
  unfold construct, bind. rewrite !when_emit.
  assert (when (truthy_str (title metadata))
            (when (db_setDiagramTitle (db d))
               (emit (EvSetDiagramTitle (db d) (default "" (title metadata)))))
            (push (if init d then [EvInit d config] else [])
               (push (if db_clear (db d) then [EvClear (db d)] else [])
                  (push (if parser_parser (parser d) then [EvSetYY (parser d) (db d)] else []) s)))
          = (Ok tt, push (setup_events config metadata d) s)) as ->.
  { unfold setup_events. rewrite !push_push, <- ?app_assoc.
    destruct (truthy_str (title metadata)); simpl.
    - rewrite when_emit, push_push, <- ?app_assoc. reflexivity.
    - unfold ret. now rewrite !app_nil_r. }
  unfold call_parse. cbn [diagrams loaders trace push].
  destruct (parse (parser d) text); unfold push; simpl; now rewrite <- !app_assoc.
Qed.

Lemma ensure_loaded_registered type d s :
  diagrams s !! type = Some d -> ensure_loaded type s = (Ok tt, s).
Proof.
  intros Hd. unfold ensure_loaded, try_catch, bind, getDiagram. now rewrite Hd.
Qed.

Lemma resolve_registered type d s :
  diagrams s !! type = Some d -> resolve type s = (Ok d, s).
Proof.
  intros Hd. unfold resolve, bind. rewrite (ensure_loaded_registered type d s Hd).
  unfold getDiagram. now rewrite Hd.
Qed.

Lemma resolve_unknown type s :
  diagrams s !! type = None -> loaders s !! type = None ->
  resolve type s = (Err (UnknownDiagramError ("Diagram " ++ type ++ " not found.")), s).
Proof.
  intros Hd Hl.
  unfold resolve, ensure_loaded, try_catch, bind, getDiagram, getDiagramLoader, throw.
  rewrite Hd. cbn beta iota. now rewrite Hl.
Qed.

Lemma resolve_load_rejected type (loader : Loader) e s :
  diagrams s !! type = None -> loaders s !! type = Some loader ->
  loader (trace s) = LoadRejected e ->
  resolve type s = (Err e, push [EvLoad type] s).
Proof.
  intros Hd Hl He.
  unfold resolve, ensure_loaded, try_catch, bind, getDiagram, getDiagramLoader, await_loader.
  rewrite Hd. cbn beta iota. rewrite Hl. cbn beta iota. now rewrite He.
Qed.

Lemma resolve_loaded type (loader : Loader) id diagram ds s :
  diagrams s !! type = None -> loaders s !! type = Some loader ->
  loader (trace s) = Loaded id diagram ->
  registerDiagram id diagram (diagrams s) = Ok ds ->
  resolve type s
  = (match ds !! type with Some d => Ok d | None => Err (DiagramNotFoundError type) end,
     {| diagrams := ds; loaders := loaders s;
        trace := trace s ++ [EvLoad type; EvRegister id diagram] |}).
Proof.
  intros Hd Hl Hload Hreg.
  unfold resolve, ensure_loaded, try_catch, bind, getDiagram, getDiagramLoader,
    await_loader, call_registerDiagram.
  rewrite Hd. cbn beta iota. rewrite Hl. cbn beta iota. rewrite Hload.
  cbn [fst snd diagrams loaders trace]. rewrite Hreg.
  cbn [diagrams]. rewrite <- app_assoc. simpl.
  destruct (ds !! type); reflexivity.
Qed.

Lemma fromText_run text metadata type s :
  detectType text getConfig = Ok type ->
  fromText text metadata s
  = match resolve type s with
    | (Ok d, s') =>
        construct getConfig type (encodeEntities text ++ String lf "") metadata d s'
    | (Err e, s') => (Err e, s')
    end.
Proof. intros Ht. unfold fromText, bind at 1, lift. rewrite Ht. reflexivity. Qed.

(** Resolution only ever records loader and registration calls. *)
Lemma resolve_trace type s :
  exists evs,
    trace (snd (resolve type s)) = trace s ++ evs
    /\ Forall (fun ev => is_parse ev = false) evs.
Proof.
  destruct (diagrams s !! type) as [d|] eqn:Hd.
  { rewrite (resolve_registered type d s Hd). exists []. simpl.
    now rewrite app_nil_r. }
  destruct (loaders s !! type) as [loader|] eqn:Hl.
  2: { rewrite (resolve_unknown type s Hd Hl). exists []. simpl.
       now rewrite app_nil_r. }
  destruct (loader (trace s)) as [id diagram|e] eqn:Hload.
  2: { rewrite (resolve_load_rejected type loader e s Hd Hl Hload).
       exists [EvLoad type]. simpl. split; [reflexivity | repeat constructor]. }
  destruct (registerDiagram id diagram (diagrams s)) as [ds|e] eqn:Hreg.
  { rewrite (resolve_loaded type loader id diagram ds s Hd Hl Hload Hreg).
    exists [EvLoad type; EvRegister id diagram]. simpl.
    split; [reflexivity | repeat constructor]. }
  exists [EvLoad type; EvRegister id diagram].
  unfold resolve, ensure_loaded, try_catch, bind, getDiagram, getDiagramLoader,
    await_loader, call_registerDiagram.
  rewrite Hd. cbn beta iota. rewrite Hl. cbn beta iota. rewrite Hload.
  cbn [fst snd diagrams loaders trace]. rewrite Hreg. simpl.
  rewrite <- app_assoc. split; [reflexivity | repeat constructor].
Qed.

(** C1. For a type tag that is registered, resolving it answers with its
    definition and leaves the registry and the record of calls as they
    were; a second resolution answers with the same definition, so that
    no loader is invoked and nothing is registered across both calls.
    A whole [fromText] on such a tag uses that definition, records no
    loader call and no registration, and leaves the registered
    definitions as they were. *)
Theorem registered_resolve_idempotent type d s :
  diagrams s !! type = Some d ->
  resolve type s = (Ok d, s)
  /\ (bind! d1 <- resolve type; bind! d2 <- resolve type; ret (d1, d2)) s = (Ok (d, d), s)
  /\ (forall text metadata,
        detectType text getConfig = Ok type ->
        exists evs,
          snd (fromText text metadata s) = push evs s
          /\ Forall (fun ev => is_load ev = false /\ is_register ev = false) evs
          /\ forall f, fst (fromText text metadata s) = Ok f ->
                       diagram_db f = db d /\ diagram_parser f = parser d
                       /\ diagram_renderer f = renderer d).
Proof.
  intros Hd. pose proof (resolve_registered type d s Hd) as Hres.
  split; [exact Hres|]. split.
  - unfold bind. rewrite Hres. cbn beta iota. rewrite Hres. reflexivity.
  - intros text metadata Ht. rewrite (fromText_run text metadata type s Ht), Hres.
    rewrite construct_run. cbn [fst snd].
    eexists. split; [reflexivity|]. split.
    + apply Forall_app. split.
      * eapply Forall_impl; [apply setup_events_quiet|]. intros ev (? & ? & _). now split.
      * repeat constructor.
    + intros f Hf. destruct (parse (parser d) _); [discriminate|].
      injection Hf as <-. now repeat split.
Qed.

(** C3. When the detected type tag has neither a registered definition
    nor a loader, [fromText] rejects with [UnknownDiagramError], and
    nothing has been recorded or registered. *)
Theorem unknown_type_rejected text metadata type s :
  detectType text getConfig = Ok type ->
  diagrams s !! type = None ->
  loaders s !! type = None ->
  fromText text metadata s
  = (Err (UnknownDiagramError ("Diagram " ++ type ++ " not found.")), s).
Proof.
  intros Ht Hd Hl.
  now rewrite (fromText_run text metadata type s Ht), (resolve_unknown type s Hd Hl).
Qed.

(** C6. When the loader of a tag that is not registered rejects,
    [fromText] rejects with the loader's reason; the only call recorded
    is the loader call, so [registerDiagram] was not called and the tag
    is still unregistered with its loader in place.  A later call
    consults the loader again: it fails with the new reason if the
    loader rejects again, and goes through once the loader delivers. *)
Theorem loader_failure_propagates text metadata type (loader : Loader) e s :
  detectType text getConfig = Ok type ->
  diagrams s !! type = None ->
  loaders s !! type = Some loader ->
  loader (trace s) = LoadRejected e ->
  let s' := push [EvLoad type] s in
  fromText text metadata s = (Err e, s')
  /\ diagrams s' !! type = None
  /\ loaders s' !! type = Some loader
  /\ (forall metadata' e',
        loader (trace s') = LoadRejected e' ->
        fromText text metadata' s' = (Err e', push [EvLoad type] s'))
  /\ (forall metadata' id diagram ds,
        loader (trace s') = Loaded id diagram ->
        registerDiagram id diagram (diagrams s') = Ok ds ->
        ds !! type = Some diagram ->
        parse (parser diagram) (encodeEntities text ++ String lf "") = None ->
        exists f s'',
          fromText text metadata' s' = (Ok f, s'')
          /\ diagrams s'' = ds
          /\ diagram_parser f = parser diagram).
Proof.
  intros Ht Hd Hl He s'.
  split; [|split; [exact Hd|split; [exact Hl|split]]].
  - now rewrite (fromText_run text metadata type s Ht),
      (resolve_load_rejected type loader e s Hd Hl He).
  - intros metadata' e' He'.
    now rewrite (fromText_run text metadata' type s' Ht),
      (resolve_load_rejected type loader e' s' Hd Hl He').
  - intros metadata' id diagram ds Hload Hreg Hds Hparse.
    rewrite (fromText_run text metadata' type s' Ht),
      (resolve_loaded type loader id diagram ds s' Hd Hl Hload Hreg), Hds.
    rewrite construct_run, Hparse. eexists _, _. split; [reflexivity|].
    split; reflexivity.
Qed.

(** C7. Whenever [fromText] accepts a text, the facade's text is the
    entity-encoded input followed by exactly one line feed, and that
    same string is what the one call of [parser.parse] received, as the
    last step of the run. *)
Theorem parsed_text_encoded text metadata s f s' :
  fromText text metadata s = (Ok f, s') ->
  DiagramFacade.text f = (encodeEntities text ++ String lf "")%string
  /\ exists evs,
       trace s' = trace s ++ evs
                    ++ [EvParse (diagram_parser f) (encodeEntities text ++ String lf "")]
       /\ Forall (fun ev => is_parse ev = false) evs.
Proof.
  intros Hrun.
  destruct (detectType text getConfig) as [type|e] eqn:Ht.
  2: { unfold fromText, bind, lift in Hrun. rewrite Ht in Hrun. discriminate. }
  rewrite (fromText_run text metadata type s Ht) in Hrun.
  destruct (resolve_trace type s) as (evs1 & Htr & Hq1).
  destruct (resolve type s) as [[d|e] s1]; [|discriminate].
  rewrite construct_run in Hrun. cbn [snd] in Htr.
  destruct (parse (parser d) _); [discriminate|].
  injection Hrun as <- <-. split; [reflexivity|].
  exists (evs1 ++ setup_events getConfig metadata d).
  cbn [push trace diagram_parser]. rewrite Htr, <- !app_assoc.
  split; [reflexivity|]. apply Forall_app. split; [assumption|].
  eapply Forall_impl; [apply setup_events_quiet|]. now intros ev (_ & _ & ?).
Qed.

(** From an unregistered tag whose loader delivers a definition under
    that tag, two resolutions in a row invoke the loader once, register
    once, and answer with the same definition. *)
Lemma resolve_twice_loads_once type (loader : Loader) d ds s :
  diagrams s !! type = None ->
  loaders s !! type = Some loader ->
  loader (trace s) = Loaded type d ->
  registerDiagram type d (diagrams s) = Ok ds ->
  ds !! type = Some d ->
  (bind! d1 <- resolve type; bind! d2 <- resolve type; ret (d1, d2)) s
  = (Ok (d, d),
     {| diagrams := ds; loaders := loaders s;
        trace := trace s ++ [EvLoad type; EvRegister type d] |}).
Proof.
  intros Hd Hl Hload Hreg Hds. unfold bind at 1.
  rewrite (resolve_loaded type loader type d ds s Hd Hl Hload Hreg), Hds.
  unfold bind.
  rewrite (resolve_registered type d
             {| diagrams := ds; loaders := loaders s;
                trace := trace s ++ [EvLoad type; EvRegister type d] |} Hds).
  reflexivity.
Qed.

End FromText.

Lemma registered_resolve_idempotent_witness :
  resolve (H := sample_environment) "flowchart" registered_flowchart
  = (Ok flowchart_definition, registered_flowchart).
Proof.
  apply (registered_resolve_idempotent (H := sample_environment)
           "flowchart" flowchart_definition registered_flowchart).
  vm_compute. reflexivity.
Defined.

Lemma unknown_type_rejected_witness :
  fromText (H := sample_environment) "doesnotexist" {| title := None |} registered_flowchart
  = (Err (UnknownDiagramError "Diagram doesnotexist not found."), registered_flowchart).
Proof.
  apply (unknown_type_rejected (H := sample_environment)
           "doesnotexist" {| title := None |} "doesnotexist" registered_flowchart).
  - vm_compute. reflexivity.
  - vm_compute. reflexivity.
  - vm_compute. reflexivity.
Defined.

Lemma loader_failure_propagates_witness :
  fromText (H := sample_environment) "flowchart TD" {| title := None |} flaky_flowchart
  = (Err (OtherError "Failed to fetch dynamically imported module"),
     push [EvLoad "flowchart"] flaky_flowchart).
Proof.
  apply (loader_failure_propagates (H := sample_environment)
           "flowchart TD" {| title := None |} "flowchart"
           (flaky_loader "flowchart" flowchart_definition)
           (OtherError "Failed to fetch dynamically imported module") flaky_flowchart).
  - vm_compute. reflexivity.
  - vm_compute. reflexivity.
  - vm_compute. reflexivity.
  - vm_compute. reflexivity.
Defined.

Lemma parsed_text_encoded_witness :
  exists f s',
    fromText (H := sample_environment) "flowchart TD" {| title := Some "Orders" |}
      registered_flowchart = (Ok f, s')
    /\ DiagramFacade.text f = String.append "flowchart TD" (String lf "").
Proof.
  assert (fromText (H := sample_environment) "flowchart TD" {| title := Some "Orders" |}
            registered_flowchart
          = (Ok {| type := "flowchart"; text := String.append "flowchart TD" (String lf "");
                   diagram_db := db flowchart_definition;
                   diagram_parser := parser flowchart_definition;
                   diagram_renderer := renderer flowchart_definition |},
             push [EvSetYY (parser flowchart_definition) (db flowchart_definition);
                   EvClear (db flowchart_definition);
                   EvInit flowchart_definition [];
                   EvSetDiagramTitle (db flowchart_definition) "Orders";
                   EvParse (parser flowchart_definition)
                     (String.append "flowchart TD" (String lf ""))]
               registered_flowchart)) as Hrun by (vm_compute; reflexivity).
  eexists _, _. split; [exact Hrun|].
  exact (proj1 (parsed_text_encoded (H := sample_environment) _ _ _ _ _ Hrun)).
Defined.

(** The retry after a failed load goes through with the sample
    environment: the first call fails in the loader, the second one
    loads, registers and parses. *)
Example retry_after_loader_failure :
  exists f s'',
    fromText (H := sample_environment) "flowchart TD" {| title := None |}
      (push [EvLoad "flowchart"] flaky_flowchart) = (Ok f, s'')
    /\ diagrams s'' !! "flowchart" = Some flowchart_definition
    /\ List.filter is_load (trace s'') = [EvLoad "flowchart"; EvLoad "flowchart"]
    /\ List.filter is_register (trace s'') = [EvRegister "flowchart" flowchart_definition].
Proof.
  eexists _, _. split; [vm_compute; reflexivity|].
  split; [vm_compute; reflexivity|]. split; reflexivity.
Qed.

(** Registry idempotence on the sample environment: the first
    resolution loads and registers the flowchart definition, the second
    one finds it. *)
Example resolve_flowchart_twice :
  (bind! d1 <- resolve (H := sample_environment) "flowchart";
   bind! d2 <- resolve (H := sample_environment) "flowchart";
   ret (d1, d2)) steady_flowchart
  = (Ok (flowchart_definition, flowchart_definition),
     {| diagrams := {[ "flowchart" := flowchart_definition ]};
        loaders := loaders steady_flowchart;
        trace := [EvLoad "flowchart"; EvRegister "flowchart" flowchart_definition] |}).
Proof.
  apply (resolve_twice_loads_once (H := sample_environment) "flowchart"
           (steady_loader "flowchart" flowchart_definition)).
  - vm_compute. reflexivity.
  - vm_compute. reflexivity.
  - reflexivity.
  - vm_compute. reflexivity.
  - vm_compute. reflexivity.
Qed.

End DiagramProps.

(** * Further properties *)

(** ** Text normalisation *)

Module NormalizeProps.

Lemma requoted_length l l' : requoted l l' -> length l = length l'.
Proof. apply Forall2_length. Qed.

Lemma requoted_no_dquote_eq l l' :
  requoted l l' -> forallb (not_char dquote) l = true -> l = l'.
Proof.
  intros Hr. induction Hr as [|a b l l' Hab _ IH]; simpl; [reflexivity|].
  intros H. apply andb_prop in H as [Ha Hl].
  destruct Hab as [->|[-> _]]; [now rewrite (IH Hl) | discriminate Ha].
Qed.

Lemma replace_crlf_length l : length (replace_crlf l) <= length l.
Proof.
  induction l as [|c t IH]; simpl; [lia|].
  destruct (Ascii.eqb c cr).
  - destruct t as [|c' t']; simpl; [lia|].
    destruct (Ascii.eqb c' lf) eqn:Hc'.
    + simpl in IH. destruct (Ascii.eqb c' cr) eqn:Hcr.
      * apply Ascii.eqb_eq in Hc', Hcr. subst c'. discriminate.
      * simpl in IH. simpl. lia.
    + simpl in *. lia.
  - simpl. lia.
Qed.

Lemma replace_crlf_forallb p l :
  p lf = true -> forallb p l = true -> forallb p (replace_crlf l) = true.
Proof.
  intros Hlf. induction l as [|c t IH]; simpl; [trivial|].
  intros H. apply andb_prop in H as [Hc Ht]. specialize (IH Ht).
  destruct (Ascii.eqb c cr).
  - destruct t as [|c' t']; simpl; [now rewrite Hlf|].
    destruct (Ascii.eqb c' lf) eqn:Hc'.
    + simpl in IH. destruct (Ascii.eqb c' cr) eqn:Hcr.
      * apply Ascii.eqb_eq in Hc', Hcr. subst c'. discriminate.
      * simpl in IH. apply andb_prop in IH as [_ IH]. simpl. now rewrite Hlf.
    + simpl. now rewrite Hlf.
  - simpl. now rewrite Hc.
Qed.

(** The first replace goes through a concatenation unless the cut falls
    between a carriage return and its line feed. *)
Lemma replace_crlf_app_head a l :
  stops (fun c => Ascii.eqb c lf) l ->
  replace_crlf (a ++ l) = replace_crlf a ++ replace_crlf l.
Proof.
  intros Hl. induction a as [|c a IH]; [reflexivity|]. simpl.
  destruct (Ascii.eqb c cr).
  - destruct a as [|c' a']; simpl.
    + destruct l as [|d l']; [reflexivity|]. simpl in Hl. now rewrite Hl.
    + simpl in IH. destruct (Ascii.eqb c' lf) eqn:Hc'.
      * destruct (Ascii.eqb c' cr) eqn:Hcr.
        { apply Ascii.eqb_eq in Hc', Hcr. subst c'. discriminate. }
        simpl. f_equal. now injection IH.
      * simpl. f_equal. exact IH.
  - simpl. f_equal. exact IH.
Qed.

Lemma replace_crlf_app_tail a l :
  not_ending_with cr a ->
  replace_crlf (a ++ l) = replace_crlf a ++ replace_crlf l.
Proof.
  induction a as [|c a IH]; intros Ha; [reflexivity|]. simpl.
  destruct (Ascii.eqb c cr) eqn:Hc.
  - destruct a as [|c' a'].
    + simpl in Ha. apply Ascii.eqb_eq in Hc. contradiction.
    + assert (not_ending_with cr (c' :: a')) as Ha' by exact Ha.
      specialize (IH Ha'). simpl in IH |- *.
      destruct (Ascii.eqb c' lf) eqn:Hc'.
      * destruct (Ascii.eqb c' cr) eqn:Hcr.
        { apply Ascii.eqb_eq in Hc', Hcr. subst c'. discriminate. }
        simpl. f_equal. now injection IH.
      * simpl. f_equal. exact IH.
  - simpl. f_equal. apply IH. destruct a; [exact I | exact Ha].
Qed.

Lemma cleanupChars_no_lt l :
  forallb (not_char lt_sign) l = true -> cleanupChars l = replace_crlf l.
Proof.
  intros Hl. unfold cleanupChars. apply replace_tags_no_lt.
  now apply replace_crlf_forallb.
Qed.

Lemma string_length_chars x : String.length x = length (list_ascii_of_string x).
Proof. induction x as [|c x IH]; simpl; [reflexivity | now rewrite IH]. Qed.

(** X1. The normalised text holds no carriage return, whatever the
    input. *)
Theorem cleanupText_no_carriage_return (x : string) :
  forallb (not_char cr) (list_ascii_of_string (cleanupText x)) = true.
Proof.
  unfold cleanupText, cleanupChars. rewrite list_ascii_of_string_of_list_ascii.
  rewrite <- (forallb_requoted _ _ _ not_cr_blind (replace_tags_requoted _)).
  apply replace_crlf_no_cr.
Qed.

(** X2. Past the line endings, normalisation changes nothing but double
    quotes into single quotes, position by position: the result is never
    longer than the input, and as long as the input when the input holds
    no carriage return. *)
Theorem cleanupText_only_requotes (x : string) :
  requoted (replace_crlf (list_ascii_of_string x)) (list_ascii_of_string (cleanupText x))
  /\ String.length (cleanupText x) <= String.length x
  /\ (forallb (not_char cr) (list_ascii_of_string x) = true ->
      requoted (list_ascii_of_string x) (list_ascii_of_string (cleanupText x))
      /\ String.length (cleanupText x) = String.length x).
Proof.
  assert (Hq : requoted (replace_crlf (list_ascii_of_string x))
                 (list_ascii_of_string (cleanupText x))).
  { unfold cleanupText, cleanupChars. rewrite list_ascii_of_string_of_list_ascii.
    apply replace_tags_requoted. }
  split; [exact Hq|]. split.
  - rewrite !string_length_chars, <- (requoted_length _ _ Hq).
    apply replace_crlf_length.
  - intros Hcr. rewrite (replace_crlf_id _ Hcr) in Hq. split; [exact Hq|].
    now rewrite !string_length_chars, <- (requoted_length _ _ Hq).
Qed.

(** X3. A text with neither a carriage return nor a double quote is a
    fixed point of normalisation, and every fixed point is free of
    carriage returns. *)
Theorem cleanupText_fixed_points (x : string) :
  (forallb (not_char cr) (list_ascii_of_string x) = true ->
   forallb (not_char dquote) (list_ascii_of_string x) = true ->
   cleanupText x = x)
  /\ (cleanupText x = x -> forallb (not_char cr) (list_ascii_of_string x) = true).
Proof.
  split.
  - intros Hcr Hdq. unfold cleanupText, cleanupChars.
    rewrite (replace_crlf_id _ Hcr).
    rewrite <- (requoted_no_dquote_eq _ _ (replace_tags_requoted _) Hdq).
    apply string_of_list_ascii_of_string.
  - intros Hfix. rewrite <- Hfix at 1.
    unfold cleanupText, cleanupChars. rewrite list_ascii_of_string_of_list_ascii.
    rewrite <- (forallb_requoted _ _ _ not_cr_blind (replace_tags_requoted _)).
    apply replace_crlf_no_cr.
Qed.

(** X4. In a text without [<], a carriage return followed by a line
    feed becomes one line feed, a carriage return on its own becomes a
    line feed, and a line feed that follows no carriage return stays. *)
Theorem cleanupChars_line_endings (a b : list ascii) :
  forallb (not_char lt_sign) a = true ->
  forallb (not_char lt_sign) b = true ->
  cleanupChars (a ++ cr :: lf :: b) = cleanupChars a ++ lf :: cleanupChars b
  /\ (stops (fun c => Ascii.eqb c lf) b ->
      cleanupChars (a ++ cr :: b) = cleanupChars a ++ lf :: cleanupChars b)
  /\ (not_ending_with cr a ->
      cleanupChars (a ++ lf :: b) = cleanupChars a ++ lf :: cleanupChars b).
Proof.
  intros Ha Hb.
  assert (Hall : forall m, forallb (not_char lt_sign) m = true ->
                           forallb (not_char lt_sign) (a ++ m ++ b) = true).
  { intros m Hm. now rewrite !forallb_app, Ha, Hm, Hb. }
  rewrite (cleanupChars_no_lt a Ha), (cleanupChars_no_lt b Hb).
  split; [|split].
  - rewrite (cleanupChars_no_lt (a ++ cr :: lf :: b) (Hall [cr; lf] eq_refl)).
    now rewrite replace_crlf_app_head.
  - intros Hstop.
    rewrite (cleanupChars_no_lt (a ++ cr :: b) (Hall [cr] eq_refl)).
    rewrite replace_crlf_app_head by reflexivity. f_equal.
    destruct b as [|d b']; [reflexivity|]. simpl in Hstop |- *. now rewrite Hstop.
  - intros Hend.
    rewrite (cleanupChars_no_lt (a ++ lf :: b) (Hall [lf] eq_refl)).
    now rewrite replace_crlf_app_tail.
Qed.

Lemma replace_attrs_before_eq name r :
  forallb (not_char dquote) name = true ->
  replace_attrs (name ++ eq_sign :: r) = name ++ replace_attrs (eq_sign :: r).
Proof.
  induction name as [|c name IH]; intros Hn; [reflexivity|].
  simpl in Hn. apply andb_prop in Hn as [_ Hn]. simpl.
  rewrite replace_attrs_skip, IH; [reflexivity | assumption |].
  destruct name as [|d name']; simpl.
  - now rewrite andb_false_r.
  - simpl in Hn. apply andb_prop in Hn as [Hd _]. unfold not_char in Hd.
    apply negb_true_iff in Hd. now rewrite Hd, andb_false_r.
Qed.

Lemma replace_attrs_quoted attrs post :
  Forall (fun nv => forallb (not_char dquote) (fst nv) = true
                    /\ forallb (not_char dquote) (snd nv) = true) attrs ->
  forallb (not_char dquote) post = true ->
  replace_attrs (quoted_attrs dquote attrs post) = quoted_attrs squote attrs post
  /\ forallb (not_char dquote) (quoted_attrs squote attrs post) = true.
Proof.
  intros Hattrs Hpost. induction Hattrs as [|[name value] attrs [Hn Hv] _ [IH1 IH2]]; simpl.
  - split; [now apply replace_attrs_no_dquote | assumption].
  - simpl in Hn, Hv. split.
    + rewrite replace_attrs_before_eq by assumption.
      rewrite (replace_attrs_match _ value _ (match_attr_intro value _ Hv)).
      now rewrite IH1.
    + rewrite forallb_app. simpl. rewrite forallb_app. simpl.
      now rewrite Hn, Hv, IH2.
Qed.

(** X5. In a well-formed tag, whose attributes are all of the form
    [name="value"] with no double quote inside a name or a value, every
    value ends up between single quotes and no double quote is left in
    the tag. *)
Theorem wellformed_tag_requoted c attrs post rest :
  is_word c = true ->
  Forall (fun nv => forallb (not_char dquote) (fst nv) = true
                    /\ forallb (not_char dquote) (snd nv) = true) attrs ->
  forallb (not_char dquote) post = true ->
  forallb (not_char gt_sign) (quoted_attrs dquote attrs post) = true ->
  replace_tags (lt_sign :: c :: quoted_attrs dquote attrs post ++ gt_sign :: rest)
  = lt_sign :: c :: quoted_attrs squote attrs post ++ gt_sign :: replace_tags rest
  /\ forallb (not_char dquote) (quoted_attrs squote attrs post) = true.
Proof.
  intros Hc Hattrs Hpost Hgt.
  destruct (replace_attrs_quoted attrs post Hattrs Hpost) as [Heq Hnone].
  split; [|exact Hnone].
  now rewrite replace_tags_tag, Heq.
Qed.

Lemma cleanupText_fixed_points_witness :
  cleanupText ("flowchart TD" ++ String lf "A-->B")%string
  = ("flowchart TD" ++ String lf "A-->B")%string.
Proof.
  exact (proj1 (cleanupText_fixed_points ("flowchart TD" ++ String lf "A-->B")%string)
           eq_refl eq_refl).
Defined.

Lemma cleanupChars_line_endings_witness :
  cleanupChars ["a"%char; cr; lf; "b"%char] = ["a"%char; lf; "b"%char].
Proof.
  exact (proj1 (cleanupChars_line_endings ["a"%char] ["b"%char] eq_refl eq_refl)).
Defined.

Lemma wellformed_tag_requoted_witness :
  let q := String dquote "" in
  cleanupText ("<rect fill=" ++ q ++ "red" ++ q ++ " stroke=" ++ q ++ "blue" ++ q ++ ">")%string
  = "<rect fill='red' stroke='blue'>".
Proof.
  exact (f_equal string_of_list_ascii
           (proj1 (wellformed_tag_requoted "r"%char
                     [(list_ascii_of_string "ect fill", list_ascii_of_string "red");
                      (list_ascii_of_string " stroke", list_ascii_of_string "blue")]
                     [] []
                     eq_refl
                     ltac:(repeat constructor)
                     eq_refl eq_refl))).
Defined.

End NormalizeProps.

(** ** Front matter, directives and the pipeline *)

Module PreprocessMore.
Import Preprocess.

Section Pipeline.
Context `{Collaborators}.

(** X6. The legacy projection touches nothing but [gantt.displayMode]:
    every other entry of the front-matter configuration and every other
    setting of its [gantt] object come back as they were. *)
Theorem displayMode_projection_local code text metadata mode r :
  extractFrontMatter code = Ok (text, metadata) ->
  md_displayMode metadata = Some mode ->
  mode <> "" ->
  processFrontmatter code = Ok r ->
  (forall k, k <> "gantt" ->
             obj_get k (fm_config r) = obj_get k (default [] (md_config metadata)))
  /\ exists gantt,
       obj_get "gantt" (fm_config r) = JObj gantt
       /\ forall k, k <> "displayMode" ->
                    obj_get k gantt
                    = match obj_get "gantt" (default [] (md_config metadata)) with
                      | JObj old => obj_get k old
                      | _ => JUndefined
                      end.
Proof.
  intros Hex Hmode Hne. unfold processFrontmatter. rewrite Hex, Hmode.
  assert (truthy_str (Some mode) = true) as ->.
  { simpl. apply negb_true_iff. now apply String.eqb_neq. }
  set (config := default [] (md_config metadata)) in *.
  destruct (truthy (obj_get "gantt" config)) eqn:Ht; simpl.
  - destruct (obj_get "gantt" config) as [| | | | |old] eqn:Hg; try discriminate.
    intros [= <-]. cbn [fm_config]. split.
    + intros k Hk. apply obj_get_set_ne. congruence.
    + eexists. split; [apply obj_get_set_eq|].
      intros k Hk. apply obj_get_set_ne. congruence.
  - rewrite obj_get_set_eq. intros [= <-]. cbn [fm_config]. split.
    + intros k Hk. rewrite (obj_get_set_ne "gantt" k) by congruence.
      apply obj_get_set_ne. congruence.
    + eexists. split; [apply obj_get_set_eq|].
      intros k Hk. simpl.
      destruct (String.eqb k "displayMode") eqn:E;
        [apply String.eqb_eq in E; congruence|].
      destruct (obj_get "gantt" config); try reflexivity. discriminate Ht.
Qed.

(** X7. The pipeline is not total: with a truthy [displayMode] and a
    [config.gantt] that is a truthy primitive (a non-empty string, a
    non-zero number, [true]), the assignment of the projection throws a
    [TypeError], which [preprocessDiagram] hands on. *)
Theorem gantt_primitive_rejected code text metadata :
  extractFrontMatter (cleanupText code) = Ok (text, metadata) ->
  truthy_str (md_displayMode metadata) = true ->
  truthy (obj_get "gantt" (default [] (md_config metadata))) = true ->
  (forall g, obj_get "gantt" (default [] (md_config metadata)) <> JObj g) ->
  exists message, preprocessDiagram code = Err (TypeError message).
Proof.
  intros Hex Hmode Ht Hprim. unfold preprocessDiagram, processFrontmatter.
  rewrite Hex, Hmode, Ht. simpl.
  destruct (obj_get "gantt" (default [] (md_config metadata))) as [| | | | |g] eqn:Hg;
    try (eexists; reflexivity).
  now destruct (Hprim g).
Qed.

(** X8. The directive step hands back the text with the directives
    removed whatever was detected, and changes no setting of the init
    directive other than [wrap]. *)
Theorem processDirectives_keeps_init code :
  dr_text (processDirectives code) = removeDirectives code
  /\ forall k, k <> "wrap" ->
               obj_get k (dr_directive (processDirectives code))
               = obj_get k (default [] (detectInit code)).
Proof.
  split; [reflexivity|]. intros k Hk. unfold processDirectives. cbn [dr_directive].
  destruct (detectDirective code "wrap") as [ds|d|]; [| |reflexivity].
  - apply obj_get_set_ne. congruence.
  - destruct (is_wrap d); [|reflexivity]. apply obj_get_set_ne. congruence.
Qed.

(** X9. Preprocessing a text that was normalised beforehand gives what
    preprocessing the raw text gives. *)
Theorem preprocessDiagram_normalised code :
  preprocessDiagram (cleanupText code) = preprocessDiagram code.
Proof.
  unfold preprocessDiagram.
  replace (cleanupText (cleanupText code)) with (cleanupText code); [reflexivity|].
  unfold cleanupText.
  now rewrite list_ascii_of_string_of_list_ascii, cleanupChars_idempotent.
Qed.

End Pipeline.

Import Contracts.

Lemma displayMode_projection_local_witness :
  exists r,
    processFrontmatter (H := with_metadata (fun _ => []) gantt_settings_metadata) "gantt" = Ok r
    /\ obj_get "theme" (fm_config r) = JStr "dark".
Proof.
  assert (processFrontmatter (H := with_metadata (fun _ => []) gantt_settings_metadata) "gantt"
          = Ok {| fm_title := Some "Plan";
                  fm_config := [("theme", JStr "dark");
                                ("gantt", JObj [("barHeight", JNum 20);
                                                ("displayMode", JStr "compact")])];
                  fm_text := "gantt" |}) as Hrun by reflexivity.
  eexists. split; [exact Hrun|].
  exact (proj1 (displayMode_projection_local
                  (H := with_metadata (fun _ => []) gantt_settings_metadata)
                  "gantt" "gantt" gantt_settings_metadata "compact" _
                  eq_refl eq_refl ltac:(discriminate) Hrun)
           "theme" ltac:(discriminate)).
Defined.

Lemma gantt_primitive_rejected_witness :
  exists message,
    preprocessDiagram (H := with_metadata (fun _ => []) gantt_string_metadata) "gantt"
    = Err (TypeError message).
Proof.
  apply (gantt_primitive_rejected (H := with_metadata (fun _ => []) gantt_string_metadata)
           "gantt" "gantt" gantt_string_metadata).
  - reflexivity.
  - reflexivity.
  - reflexivity.
  - intros g. discriminate.
Defined.

End PreprocessMore.

(** ** The modelled removal of directives *)

Module ContractsProps.
Import Contracts.

Lemma strip_prefix_app p l r : strip_prefix p l = Some r -> l = p ++ r.
Proof.
  revert l. induction p as [|a p IH]; intros l; simpl.
  - now intros [= ->].
  - destruct l as [|b l]; [discriminate|].
    destruct (Ascii.eqb a b) eqn:E; [|discriminate].
    apply Ascii.eqb_eq in E. subst b. intros Hr. now rewrite (IH l Hr).
Qed.

Lemma find_sub_app needle l b r :
  find_sub needle l = Some (b, r) -> l = b ++ needle ++ r.
Proof.
  revert b r. induction l as [|c t IH]; intros b r; simpl.
  - destruct (strip_prefix needle []) as [rest|] eqn:E; [|discriminate].
    intros [= <- <-]. simpl. now apply strip_prefix_app.
  - destruct (strip_prefix needle (c :: t)) as [rest|] eqn:E.
    + intros [= <- <-]. simpl. now apply strip_prefix_app.
    + destruct (find_sub needle t) as [[b' r']|]; [|discriminate].
      intros [= <- <-]. simpl. now rewrite (IH b' r' eq_refl).
Qed.

Lemma directive_remove_shrinks : shrinking directive_remove.
Proof.
  intros l r rest. unfold directive_remove, match_directive.
  destruct (strip_prefix (chars "%%{") l) as [l1|] eqn:E1; [|discriminate].
  destruct (find_sub (chars "}%%") l1) as [[body rest']|] eqn:E2; [|discriminate].
  intros [= <- <-]. apply strip_prefix_app in E1. apply find_sub_app in E2.
  subst l l1. rewrite !length_app. simpl. lia.
Qed.

Lemma strip_directives_length l : length (strip_directives l) <= length l.
Proof.
  unfold strip_directives.
  induction l as [|l r rest E IH|c t E IH]
    using (replace_all_ind directive_remove directive_remove_shrinks).
  - simpl. lia.
  - rewrite (replace_all_match _ directive_remove_shrinks l r rest E).
    pose proof (directive_remove_shrinks l r rest E) as Hlt.
    unfold directive_remove in E. destruct (match_directive l) as [[? ?]|]; [|discriminate].
    injection E as <- <-. simpl. lia.
  - rewrite (replace_all_skip _ directive_remove_shrinks c t E). simpl. lia.
Qed.

(** A pass that removes nothing changes nothing. *)
Lemma strip_directives_same_length l :
  length (strip_directives l) = length l -> strip_directives l = l.
Proof.
  unfold strip_directives.
  induction l as [|l r rest E IH|c t E IH]
    using (replace_all_ind directive_remove directive_remove_shrinks).
  - reflexivity.
  - rewrite (replace_all_match _ directive_remove_shrinks l r rest E).
    pose proof (directive_remove_shrinks l r rest E) as Hlt.
    pose proof (strip_directives_length rest) as Hle. unfold strip_directives in Hle.
    unfold directive_remove in E. destruct (match_directive l) as [[? ?]|]; [|discriminate].
    injection E as <- <-. simpl. lia.
  - rewrite (replace_all_skip _ directive_remove_shrinks c t E). simpl.
    intros [= Hlen]. now rewrite (IH Hlen).
Qed.

Lemma strip_until_stable_fixed n :
  forall l, length l <= n ->
            strip_directives (strip_until_stable n l) = strip_until_stable n l.
Proof.
  induction n as [|n IH]; intros l Hl.
  - destruct l; [reflexivity | simpl in Hl; lia].
  - simpl. destruct (Nat.eqb (length (strip_directives l)) (length l)) eqn:E.
    + apply Nat.eqb_eq in E. apply strip_directives_same_length in E. now rewrite !E.
    + apply Nat.eqb_neq in E. apply IH.
      pose proof (strip_directives_length l). lia.
Qed.

Lemma strip_until_stable_id n l :
  strip_directives l = l -> strip_until_stable n l = l.
Proof.
  intros Hl. destruct n; [reflexivity|]. simpl. now rewrite Hl, Nat.eqb_refl.
Qed.

(** The modelled removal of directives is idempotent, as its contract
    asks. *)
Lemma removeDirectives_model_idempotent text :
  removeDirectives_model (removeDirectives_model text) = removeDirectives_model text.
Proof.
  unfold removeDirectives_model, chars, str.
  rewrite list_ascii_of_string_of_list_ascii.
  rewrite strip_until_stable_id; [reflexivity|].
  now apply strip_until_stable_fixed.
Qed.

End ContractsProps.

(** ** Runs of [fromText] and the facade *)

Module DiagramMore.
Import DiagramFacade DiagramProps.
Local Open Scope js_scope.

Lemma filter_none {A} (p : A -> bool) (l : list A) :
  Forall (fun x => p x = false) l -> List.filter p l = [].
Proof.
  induction 1 as [|x l Hx _ IH]; simpl; [reflexivity|]. now rewrite Hx.
Qed.

Lemma setup_no_load config metadata d :
  List.filter is_load (setup_events config metadata d) = [].
Proof.
  apply filter_none. eapply Forall_impl; [apply setup_events_quiet|]. now intros ev (? & _).
Qed.

Lemma setup_no_register config metadata d :
  List.filter is_register (setup_events config metadata d) = [].
Proof.
  apply filter_none. eapply Forall_impl; [apply setup_events_quiet|].
  now intros ev (_ & ? & _).
Qed.

Section Runs.
Context `{Environment}.

Lemma resolve_register_rejected type (loader : Loader) id diagram e s :
  diagrams s !! type = None -> loaders s !! type = Some loader ->
  loader (trace s) = Loaded id diagram ->
  registerDiagram id diagram (diagrams s) = Err e ->
  resolve type s = (Err e, push [EvLoad type; EvRegister id diagram] s).
Proof.
  intros Hd Hl Hload Hreg.
  unfold resolve, ensure_loaded, try_catch, bind, getDiagram, getDiagramLoader,
    await_loader, call_registerDiagram.
  rewrite Hd. cbn beta iota. rewrite Hl. cbn beta iota. rewrite Hload.
  cbn [fst snd diagrams loaders trace]. rewrite Hreg.
  unfold push. now rewrite <- app_assoc.
Qed.

Lemma resolve_cases type s :
  Resolution type s (fst (resolve type s)) (snd (resolve type s)).
Proof.
  destruct (diagrams s !! type) as [d|] eqn:Hd.
  { rewrite (resolve_registered type d s Hd). now constructor. }
  destruct (loaders s !! type) as [loader|] eqn:Hl.
  2: { rewrite (resolve_unknown type s Hd Hl). now constructor. }
  destruct (loader (trace s)) as [id diagram|e] eqn:Hload.
  2: { rewrite (resolve_load_rejected type loader e s Hd Hl Hload).
       now apply (ResLoadRejected type s loader). }
  destruct (registerDiagram id diagram (diagrams s)) as [ds|e] eqn:Hreg.
  - rewrite (resolve_loaded type loader id diagram ds s Hd Hl Hload Hreg).
    now apply (ResLoaded type s loader).
  - rewrite (resolve_register_rejected type loader id diagram e s Hd Hl Hload Hreg).
    now apply (ResRegisterRejected type s loader).
Qed.

Lemma resolve_ok_registered type s d s1 :
  resolve type s = (Ok d, s1) -> diagrams s1 !! type = Some d.
Proof.
  intros Hres. pose proof (resolve_cases type s) as Hc. rewrite Hres in Hc.
  cbn [fst snd] in Hc. inversion Hc as [d' Hd| | | |loader id diagram ds Hd Hl Hload Hreg Hr];
    subst.
  - assumption.
  - cbn [diagrams]. destruct (ds !! type) as [d'|] eqn:E; [|discriminate].
    now injection Hr as ->.
Qed.

Lemma fromText_registered text metadata type d s :
  detectType text getConfig = Ok type ->
  diagrams s !! type = Some d ->
  fromText text metadata s
  = (match parse (parser d) (encodeEntities text ++ String lf "") with
     | None => Ok {| type := type; text := encodeEntities text ++ String lf "";
                     diagram_db := db d; diagram_parser := parser d;
                     diagram_renderer := renderer d |}
     | Some e => Err e
     end,
     push (setup_events getConfig metadata d
           ++ [EvParse (parser d) (encodeEntities text ++ String lf "")]) s).
Proof.
  intros Ht Hd.
  now rewrite (fromText_run text metadata type s Ht), (resolve_registered type d s Hd),
    construct_run.
Qed.


(** X11. A parse error does not undo a registration: when the
    definition was loaded and registered during the call and the parser
    then rejects the text, [fromText] rejects with the parser's error
    and the definition stays registered under its tag. *)
Theorem parse_failure_keeps_registration text metadata type (loader : Loader) d ds e s :
  detectType text getConfig = Ok type ->
  diagrams s !! type = None ->
  loaders s !! type = Some loader ->
  loader (trace s) = Loaded type d ->
  registerDiagram type d (diagrams s) = Ok ds ->
  ds !! type = Some d ->
  parse (parser d) (encodeEntities text ++ String lf "") = Some e ->
  exists s',
    fromText text metadata s = (Err e, s')
    /\ diagrams s' = ds
    /\ diagrams s' !! type = Some d
    /\ trace s' = trace s ++ [EvLoad type; EvRegister type d]
                    ++ setup_events getConfig metadata d
                    ++ [EvParse (parser d) (encodeEntities text ++ String lf "")].
Proof.
  intros Ht Hd Hl Hload Hreg Hds Hparse.
  rewrite (fromText_run text metadata type s Ht),
    (resolve_loaded type loader type d ds s Hd Hl Hload Hreg), Hds, construct_run, Hparse.
  eexists. split; [reflexivity|]. cbn [push diagrams trace].
  repeat split; [assumption|]. now rewrite <- !app_assoc.
Qed.

(** X12. A loader that delivers its definition under an id other than
    the detected type does not help: the definition is registered under
    that id, the detected type is still unknown, and [fromText] rejects
    with the error of the second [getDiagram] without calling the
    parser. *)
Theorem loader_id_mismatch text metadata type (loader : Loader) id d ds s :
  detectType text getConfig = Ok type ->
  diagrams s !! type = None ->
  loaders s !! type = Some loader ->
  loader (trace s) = Loaded id d ->
  registerDiagram id d (diagrams s) = Ok ds ->
  ds !! type = None ->
  fromText text metadata s
  = (Err (DiagramNotFoundError type),
     {| diagrams := ds; loaders := loaders s;
        trace := trace s ++ [EvLoad type; EvRegister id d] |}).
Proof.
  intros Ht Hd Hl Hload Hreg Hds.
  now rewrite (fromText_run text metadata type s Ht),
    (resolve_loaded type loader id d ds s Hd Hl Hload Hreg), Hds.
Qed.

(** X13. A definition is loaded once: after a first [fromText] has
    loaded and registered the definition of a tag, a second [fromText]
    on a text of the same tag calls neither the loader nor
    [registerDiagram], whether or not the parser accepts either text. *)
Theorem lazy_load_once text1 metadata1 text2 metadata2 type (loader : Loader) d ds s :
  detectType text1 getConfig = Ok type ->
  detectType text2 getConfig = Ok type ->
  diagrams s !! type = None ->
  loaders s !! type = Some loader ->
  loader (trace s) = Loaded type d ->
  registerDiagram type d (diagrams s) = Ok ds ->
  ds !! type = Some d ->
  let s1 := snd (fromText text1 metadata1 s) in
  let s2 := snd (fromText text2 metadata2 s1) in
  List.filter is_load (trace s2) = List.filter is_load (trace s) ++ [EvLoad type]
  /\ List.filter is_register (trace s2)
     = List.filter is_register (trace s) ++ [EvRegister type d]
  /\ diagrams s2 = ds.
Proof.
  intros Ht1 Ht2 Hd Hl Hload Hreg Hds s1 s2.
  assert (Hs1 : s1 = push (setup_events getConfig metadata1 d
                           ++ [EvParse (parser d) (encodeEntities text1 ++ String lf "")])
                       {| diagrams := ds; loaders := loaders s;
                          trace := trace s ++ [EvLoad type; EvRegister type d] |}).
  { unfold s1.
    now rewrite (fromText_run text1 metadata1 type s Ht1),
      (resolve_loaded type loader type d ds s Hd Hl Hload Hreg), Hds, construct_run. }
  assert (Hs2 : s2 = push (setup_events getConfig metadata2 d
                           ++ [EvParse (parser d) (encodeEntities text2 ++ String lf "")])
                       s1).
  { unfold s2. rewrite (fromText_registered text2 metadata2 type d s1 Ht2); [reflexivity|].
    now rewrite Hs1. }
  rewrite Hs2, Hs1. cbn [push diagrams trace].
  rewrite !List.filter_app, !setup_no_load, !setup_no_register. simpl.
  now rewrite !app_nil_r.
Qed.

Lemma resolve_shape type s :
  exists l,
    trace (snd (resolve type s)) = trace s ++ l
    /\ loaders (snd (resolve type s)) = loaders s
    /\ (l = [] \/ l = [EvLoad type] \/ exists id d, l = [EvLoad type; EvRegister id d]).
Proof.
  destruct (resolve_cases type s).
  - exists []. rewrite app_nil_r. repeat split. now left.
  - exists []. rewrite app_nil_r. repeat split. now left.
  - exists [EvLoad type]. repeat split. right. now left.
  - exists [EvLoad type; EvRegister id diagram]. repeat split.
    right. right. now exists id, diagram.
  - exists [EvLoad type; EvRegister id diagram]. repeat split.
    right. right. now exists id, diagram.
Qed.

(** X14. One [fromText] only adds to the record of calls and leaves the
    loaders alone.  What it adds is, in this order: at most one loader
    call, with at most one [registerDiagram] call right after it (never
    a registration without the loader call before it); then calls into
    the model and the initializer; then at most one [parser.parse] call,
    which is the last. *)
Theorem fromText_call_bounds text metadata s :
  exists l setup p,
    trace (snd (fromText text metadata s)) = trace s ++ l ++ setup ++ p
    /\ loaders (snd (fromText text metadata s)) = loaders s
    /\ (l = [] \/ (exists type, l = [EvLoad type])
        \/ (exists type id d, l = [EvLoad type; EvRegister id d]))
    /\ Forall (fun ev => is_load ev = false /\ is_register ev = false /\ is_parse ev = false)
         setup
    /\ (p = [] \/ exists parser text', p = [EvParse parser text']).
Proof.
  destruct (detectType text getConfig) as [type|e0] eqn:Ht.
  2: { exists [], [], []. unfold fromText, bind, lift. rewrite Ht. cbn [snd].
       rewrite !app_nil_r. repeat split; [now left | constructor | now left]. }
  rewrite (fromText_run text metadata type s Ht).
  destruct (resolve_shape type s) as (l & Htr & Hld & Hl).
  assert (Hl' : l = [] \/ (exists type, l = [EvLoad type])
                \/ (exists type id d, l = [EvLoad type; EvRegister id d])).
  { destruct Hl as [->|[->|(id & d & ->)]];
      [now left | right; left; now exists type | right; right; now exists type, id, d]. }
  destruct (resolve type s) as [[d|e1] s1]; cbn [snd] in *.
  - rewrite construct_run. cbn [snd push trace loaders].
    exists l, (setup_events getConfig metadata d),
      [EvParse (parser d) (encodeEntities text ++ String lf "")].
    rewrite Htr, <- !app_assoc.
    split; [reflexivity|]. split; [assumption|]. split; [assumption|].
    split; [apply setup_events_quiet|]. right. now eexists _, _.
  - exists l, [], []. rewrite !app_nil_r.
    split; [assumption|]. split; [assumption|]. split; [assumption|].
    split; [constructor | now left].
Qed.

(** X15. In a run on a registered tag that is accepted, the optional
    calls follow the capabilities probed: the nested parser got the
    model exactly when the parser has one, [clear] and [init] were
    called exactly when they exist, and [setDiagramTitle] was called,
    with the caller's title, exactly when that title is a non-empty
    string and the model has the method. *)
Theorem optional_calls_follow_capabilities text metadata type d s f s' :
  detectType text getConfig = Ok type ->
  diagrams s !! type = Some d ->
  fromText text metadata s = (Ok f, s') ->
  exists evs,
    s' = push evs s
    /\ (In (EvSetYY (parser d) (db d)) evs <-> parser_parser (parser d) = true)
    /\ (In (EvClear (db d)) evs <-> db_clear (db d) = true)
    /\ (In (EvInit d getConfig) evs <-> init d = true)
    /\ (forall t, In (EvSetDiagramTitle (db d) t) evs
                  <-> title metadata = Some t /\ t <> ""%string
                      /\ db_setDiagramTitle (db d) = true).
Proof.
  intros Ht Hd Hrun. rewrite (fromText_registered text metadata type d s Ht Hd) in Hrun.
  destruct (parse (parser d) _); [discriminate|]. injection Hrun as _ <-.
  eexists. split; [reflexivity|]. unfold setup_events.
  destruct (title metadata) as [t0|]; cbn [truthy_str default].
  - destruct (String.eqb t0 "") eqn:E;
      [apply String.eqb_eq in E | apply String.eqb_neq in E];
      destruct (parser_parser (parser d)), (db_clear (db d)), (init d),
        (db_setDiagramTitle (db d)); simpl;
      repeat split; intros; intuition (try discriminate; try congruence).
  - destruct (parser_parser (parser d)), (db_clear (db d)), (init d),
      (db_setDiagramTitle (db d)); simpl;
      repeat split; intros; intuition (try discriminate; try congruence).
Qed.

(** X16. What an accepted text leaves behind: the facade's type is the
    detected type, its parser and model are those of the definition
    registered under that type when [fromText] returns, and [render]
    calls that definition's renderer with the text that was parsed, the
    id and the version it is given, and the facade itself. *)
Theorem facade_surface text metadata s f s' :
  fromText text metadata s = (Ok f, s') ->
  exists d,
    detectType text getConfig = Ok (getType f)
    /\ diagrams s' !! getType f = Some d
    /\ getParser f = parser d
    /\ diagram_db f = db d
    /\ forall id version,
         render f id version
         = {| draw_renderer := renderer d;
              draw_text := encodeEntities text ++ String lf "";
              draw_id := id; draw_version := version; draw_diagram := f |}.
Proof.
  intros Hrun. destruct (detectType text getConfig) as [type|e] eqn:Ht.
  2: { unfold fromText, bind, lift in Hrun. rewrite Ht in Hrun. discriminate. }
  rewrite (fromText_run text metadata type s Ht) in Hrun.
  destruct (resolve type s) as [[d|e] s1] eqn:Hres; [|discriminate].
  apply resolve_ok_registered in Hres.
  rewrite construct_run in Hrun.
  destruct (parse (parser d) _); [discriminate|].
  injection Hrun as <- <-. exists d. unfold getType, getParser. simpl.
  repeat split. exact Hres.
Qed.

End Runs.


Lemma parse_failure_keeps_registration_witness :
  exists s',
    fromText (H := picky_environment) "flowchart" {| title := None |} steady_flowchart
    = (Err (OtherError "Parse error on line 1"), s')
    /\ diagrams s' !! "flowchart" = Some flowchart_definition.
Proof.
  destruct (parse_failure_keeps_registration (H := picky_environment)
              "flowchart" {| title := None |} "flowchart"
              (steady_loader "flowchart" flowchart_definition) flowchart_definition
              {[ "flowchart" := flowchart_definition ]}
              (OtherError "Parse error on line 1") steady_flowchart
              ltac:(vm_compute; reflexivity) ltac:(vm_compute; reflexivity)
              ltac:(vm_compute; reflexivity) eq_refl
              ltac:(vm_compute; reflexivity) ltac:(vm_compute; reflexivity)
              ltac:(vm_compute; reflexivity))
    as (s' & Hrun & _ & Hreg & _).
  exists s'. split; assumption.
Defined.

Lemma loader_id_mismatch_witness :
  fst (fromText (H := sample_environment) "flowchart TD" {| title := None |} renamed_flowchart)
  = Err (DiagramNotFoundError "flowchart").
Proof.
  exact (f_equal fst
           (loader_id_mismatch (H := sample_environment)
              "flowchart TD" {| title := None |} "flowchart"
              (steady_loader "flowchart-v2" flowchart_definition) "flowchart-v2"
              flowchart_definition {[ "flowchart-v2" := flowchart_definition ]}
              renamed_flowchart
              ltac:(vm_compute; reflexivity) ltac:(vm_compute; reflexivity)
              ltac:(vm_compute; reflexivity) eq_refl
              ltac:(vm_compute; reflexivity) ltac:(vm_compute; reflexivity))).
Defined.

Lemma lazy_load_once_witness :
  List.filter is_load
    (trace (snd (fromText (H := sample_environment) "flowchart LR" {| title := None |}
                   (snd (fromText (H := sample_environment) "flowchart TD"
                           {| title := None |} steady_flowchart)))))
  = [EvLoad "flowchart"].
Proof.
  exact (proj1 (lazy_load_once (H := sample_environment)
                  "flowchart TD" {| title := None |} "flowchart LR" {| title := None |}
                  "flowchart" (steady_loader "flowchart" flowchart_definition)
                  flowchart_definition {[ "flowchart" := flowchart_definition ]}
                  steady_flowchart
                  ltac:(vm_compute; reflexivity) ltac:(vm_compute; reflexivity)
                  ltac:(vm_compute; reflexivity) ltac:(vm_compute; reflexivity)
                  eq_refl ltac:(vm_compute; reflexivity) ltac:(vm_compute; reflexivity))).
Defined.

Lemma optional_calls_follow_capabilities_witness :
  exists evs f,
    fromText (H := sample_environment) "flowchart TD" {| title := Some "Orders" |}
      registered_flowchart = (Ok f, push evs registered_flowchart)
    /\ In (EvSetDiagramTitle (db flowchart_definition) "Orders") evs.
Proof.
  assert (fromText (H := sample_environment) "flowchart TD" {| title := Some "Orders" |}
            registered_flowchart
          = (Ok {| type := "flowchart"; text := String.append "flowchart TD" (String lf "");
                   diagram_db := db flowchart_definition;
                   diagram_parser := parser flowchart_definition;
                   diagram_renderer := renderer flowchart_definition |},
             push [EvSetYY (parser flowchart_definition) (db flowchart_definition);
                   EvClear (db flowchart_definition);
                   EvInit flowchart_definition [];
                   EvSetDiagramTitle (db flowchart_definition) "Orders";
                   EvParse (parser flowchart_definition)
                     (String.append "flowchart TD" (String lf ""))]
               registered_flowchart)) as Hrun by (vm_compute; reflexivity).
  destruct (optional_calls_follow_capabilities (H := sample_environment)
              "flowchart TD" {| title := Some "Orders" |} "flowchart" flowchart_definition
              registered_flowchart _ _
              ltac:(vm_compute; reflexivity) ltac:(vm_compute; reflexivity) Hrun)
    as (evs & Hs' & _ & _ & _ & Htitle).
  exists evs. eexists. split; [rewrite <- Hs'; exact Hrun|].
  apply Htitle. repeat split. discriminate.
Defined.

Lemma facade_surface_witness :
  exists f s',
    fromText (H := sample_environment) "flowchart TD" {| title := None |} registered_flowchart
    = (Ok f, s')
    /\ draw_text (render f "mermaid-1" "11.0.0") = String.append "flowchart TD" (String lf "").
Proof.
  assert (fromText (H := sample_environment) "flowchart TD" {| title := None |}
            registered_flowchart
          = (Ok {| type := "flowchart"; text := String.append "flowchart TD" (String lf "");
                   diagram_db := db flowchart_definition;
                   diagram_parser := parser flowchart_definition;
                   diagram_renderer := renderer flowchart_definition |},
             push [EvSetYY (parser flowchart_definition) (db flowchart_definition);
                   EvClear (db flowchart_definition);
                   EvInit flowchart_definition [];
                   EvParse (parser flowchart_definition)
                     (String.append "flowchart TD" (String lf ""))]
               registered_flowchart)) as Hrun by (vm_compute; reflexivity).
  eexists _, _. split; [exact Hrun|].
  destruct (facade_surface (H := sample_environment) _ _ _ _ _ Hrun)
    as (d & _ & _ & _ & _ & Hrender).
  now rewrite Hrender.
Defined.

End DiagramMore.
